(** * The SparkApplication controller (pkg/controller/controller.go)

    A shallow embedding of the reconciliation engine: the work-queue worker,
    the submission trigger, the optimistic status updater, the three report
    consumers and the restart evaluation.

    Go values are immutable Rocq values, so [DeepCopy] is the identity and a
    closure that mutates its argument in place becomes a function returning
    the mutated object.  Everything the controller reaches through an
    interface (the informer store, the CRD client, the kube client, the work
    queue, the clock) is a method of the class [Externals] acting on an
    abstract cluster state; every call the controller issues is appended to a
    trace, so that "how many times was Update called" is a property of the
    result. *)

From Stdlib Require Import ZArith List Ascii.
From stdpp Require Import base decidable option strings gmap pretty.

Local Open Scope Z_scope.
Local Open Scope string_scope.
Local Open Scope list_scope.

(** ** Kubernetes values *)

(** [apiv1.PodPhase] is a string type with four phases the controller names. *)
Definition PodPhase := string.
Definition PodPending : PodPhase := "Pending".
Definition PodRunning : PodPhase := "Running".
Definition PodSucceeded : PodPhase := "Succeeded".
Definition PodFailed : PodPhase := "Failed".

(** [metav1.Time]: an instant, counted from Go's zero [Time]. *)
Definition Time := Z.
Definition IsZero (t : Time) : bool := bool_decide (t = 0).

(** Errors: an API [errors.StatusError] carries a code and a reason, any
    other error only its message. *)
Inductive error :=
| StatusError (Code : Z) (Reason : string)
| OtherError (msg : string).

Definition StatusNotFound : Z := 404.
Definition StatusReasonNotFound : string := "NotFound".
Definition StatusReasonConflict : string := "Conflict".

Definition IsNotFound (err : error) : bool :=
  match err with
  | StatusError _ reason => bool_decide (reason = StatusReasonNotFound)
  | OtherError _ => false
  end.

(** What a client call hands back: the object, or the error. *)
Inductive Result (A : Type) :=
| Ok (a : A)
| Err (e : error).
Arguments Ok {A} a.
Arguments Err {A} e.

Record NodeAddress := { Type_ : string; Address : string }.
Definition NodeExternalIP : string := "ExternalIP".
Record Node := { Addresses : list NodeAddress }.

(** ** The v1alpha1 API types *)

(** Modelled from the spec: [v1alpha1.ApplicationStateType] is declared in
    pkg/apis; the spec lists its seven states.  [UnsetState] is the zero
    value of the underlying string type, the state of a status that was
    never written. *)
Inductive ApplicationStateType :=
| UnsetState
| NewState
| SubmittedState
| RunningState
| CompletedState
| FailedState
| FailedSubmissionState
| UnknownState.

(** Modelled from the spec: [v1alpha1.RestartPolicy] is declared in pkg/apis;
    the spec lists its four values. *)
Inductive RestartPolicy := Undefined | Never | OnFailure | Always.

(** Modelled from the spec: [v1alpha1.ExecutorState] is declared in pkg/apis;
    the controller singles out the pending state only, every other value is
    kept with its name. *)
Inductive ExecutorStateType :=
| ExecutorPendingState
| ExecutorOtherState (name : string).

Global Instance ApplicationStateType_eq_dec : EqDecision ApplicationStateType.
Proof. solve_decision. Defined.
Global Instance RestartPolicy_eq_dec : EqDecision RestartPolicy.
Proof. solve_decision. Defined.
Global Instance ExecutorStateType_eq_dec : EqDecision ExecutorStateType.
Proof. solve_decision. Defined.
Global Instance error_eq_dec : EqDecision error.
Proof. solve_decision. Defined.

Record ApplicationState := {
  State : ApplicationStateType;
  ErrorMessage : string
}.

Record DriverInfoType := {
  PodName : string;
  WebUIAddress : string;
  WebUIPort : Z
}.

(** A Go map is [nil] or a table: [None] is the nil map, [Some ∅] the empty
    table made by [make].  [reflect.DeepEqual] tells the two apart, and so
    does [=] here. *)
Record SparkApplicationStatus := {
  AppID : string;
  SubmissionTime : Time;
  CompletionTime : Time;
  DriverInfo : DriverInfoType;
  AppState : ApplicationState;
  ExecutorState : option (gmap string ExecutorStateType)
}.

Record SparkApplicationSpec := {
  RestartPolicy_ : RestartPolicy
}.

Record SparkApplication := {
  Name : string;
  Namespace : string;
  UID : string;
  Spec : SparkApplicationSpec;
  Status : SparkApplicationStatus
}.

Global Instance ApplicationState_eq_dec : EqDecision ApplicationState.
Proof. solve_decision. Defined.
Global Instance DriverInfoType_eq_dec : EqDecision DriverInfoType.
Proof. solve_decision. Defined.
Global Instance SparkApplicationStatus_eq_dec : EqDecision SparkApplicationStatus.
Proof. solve_decision. Defined.
Global Instance SparkApplicationSpec_eq_dec : EqDecision SparkApplicationSpec.
Proof. solve_decision. Defined.
Global Instance SparkApplication_eq_dec : EqDecision SparkApplication.
Proof. solve_decision. Defined.

(** [v1alpha1.SparkApplicationStatus{}]: every field at its zero value. *)
Definition emptyStatus : SparkApplicationStatus := {|
  AppID := "";
  SubmissionTime := 0;
  CompletionTime := 0;
  DriverInfo := {| PodName := ""; WebUIAddress := ""; WebUIPort := 0 |};
  AppState := {| State := UnsetState; ErrorMessage := "" |};
  ExecutorState := None
|}.

(** [reflect.DeepEqual] on two statuses. *)
Definition DeepEqual (a b : SparkApplicationStatus) : bool := bool_decide (a = b).

Definition DeepCopy (app : SparkApplication) : SparkApplication := app.

(** Field assignments, one per path the controller writes. *)
Definition with_Status (st : SparkApplicationStatus) (app : SparkApplication) :=
  {| Name := Name app; Namespace := Namespace app; UID := UID app;
     Spec := Spec app; Status := st |}.

Definition with_AppID (id : string) (st : SparkApplicationStatus) :=
  {| AppID := id; SubmissionTime := SubmissionTime st;
     CompletionTime := CompletionTime st; DriverInfo := DriverInfo st;
     AppState := AppState st; ExecutorState := ExecutorState st |}.

Definition with_SubmissionTime (t : Time) (st : SparkApplicationStatus) :=
  {| AppID := AppID st; SubmissionTime := t;
     CompletionTime := CompletionTime st; DriverInfo := DriverInfo st;
     AppState := AppState st; ExecutorState := ExecutorState st |}.

Definition with_CompletionTime (t : Time) (st : SparkApplicationStatus) :=
  {| AppID := AppID st; SubmissionTime := SubmissionTime st;
     CompletionTime := t; DriverInfo := DriverInfo st;
     AppState := AppState st; ExecutorState := ExecutorState st |}.

Definition with_DriverInfo (d : DriverInfoType) (st : SparkApplicationStatus) :=
  {| AppID := AppID st; SubmissionTime := SubmissionTime st;
     CompletionTime := CompletionTime st; DriverInfo := d;
     AppState := AppState st; ExecutorState := ExecutorState st |}.

Definition with_AppState (s : ApplicationState) (st : SparkApplicationStatus) :=
  {| AppID := AppID st; SubmissionTime := SubmissionTime st;
     CompletionTime := CompletionTime st; DriverInfo := DriverInfo st;
     AppState := s; ExecutorState := ExecutorState st |}.

Definition with_ExecutorState (m : option (gmap string ExecutorStateType))
    (st : SparkApplicationStatus) :=
  {| AppID := AppID st; SubmissionTime := SubmissionTime st;
     CompletionTime := CompletionTime st; DriverInfo := DriverInfo st;
     AppState := AppState st; ExecutorState := m |}.

Definition with_State (s : ApplicationStateType) (a : ApplicationState) :=
  {| State := s; ErrorMessage := ErrorMessage a |}.

Definition with_ErrorMessage (msg : string) (a : ApplicationState) :=
  {| State := State a; ErrorMessage := msg |}.

Definition with_PodName (n : string) (d : DriverInfoType) :=
  {| PodName := n; WebUIAddress := WebUIAddress d; WebUIPort := WebUIPort d |}.

Definition with_WebUIAddress (a : string) (d : DriverInfoType) :=
  {| PodName := PodName d; WebUIAddress := a; WebUIPort := WebUIPort d |}.

(** ** The report messages

    Modelled from the spec: the three message types are declared next to
    their producers (the submission runner and the pod monitor); their
    fields are those of the spec's data model, which are those this file
    reads. *)

Module appStateUpdate.
Record t := {
  namespace : string;
  name : string;
  state : ApplicationStateType;
  errorMessage : string;
  submissionTime : Time
}.
End appStateUpdate.

Module driverStateUpdate.
Record t := {
  appNamespace : string;
  appName : string;
  podName : string;
  nodeName : string;
  podPhase : PodPhase;
  completionTime : Time
}.
End driverStateUpdate.

Module executorStateUpdate.
Record t := {
  appNamespace : string;
  appName : string;
  podName : string;
  executorID : string;
  state : ExecutorStateType
}.
End executorStateUpdate.

(** What travels on [podStateReportingChan]. *)
Inductive podStateUpdate :=
| DriverUpdate (u : driverStateUpdate.t)
| ExecutorUpdate (u : executorStateUpdate.t).

(** Modelled from the spec: a submission is the command arguments and the
    job it is for; [newSubmission(args, app)] is declared with the runner. *)
Record submission := { args : list string; app : SparkApplication }.
Definition newSubmission (a : list string) (p : SparkApplication) : submission :=
  {| args := a; app := p |}.

(** ** Pure helpers *)

Definition getApplicationKey (namespace name : string) : string :=
  namespace +:+ "/" +:+ name.

Definition isAppTerminated (appState : ApplicationStateType) : bool :=
  bool_decide (appState = CompletedState) || bool_decide (appState = FailedState).

Definition driverPodPhaseToApplicationState (podPhase : PodPhase) : ApplicationStateType :=
  if bool_decide (podPhase = PodPending) then SubmittedState
  else if bool_decide (podPhase = PodRunning) then RunningState
  else if bool_decide (podPhase = PodSucceeded) then CompletedState
  else if bool_decide (podPhase = PodFailed) then FailedState
  else UnknownState.

(** ** Effects *)

(** glog output: a line is kept by its severity and format string. *)
Inductive Severity := ERROR | INFO | V2.
Record LogLine := { severity : Severity; format : string }.

(** State passing: a computation takes the state and returns its result with
    the state it leaves. *)
Definition Prog (S A : Type) : Type := S -> A * S.

Definition ret {S A : Type} (a : A) : Prog S A := fun s => (a, s).

Definition bind {S A B : Type} (m : Prog S A) (k : A -> Prog S B) : Prog S B :=
  fun s => let (a, s') := m s in k a s'.

Declare Scope prog_scope.
Delimit Scope prog_scope with prog.
Notation "'let!' x ':=' c 'in' k" := (bind c (fun x => k))
  (at level 10, x pattern, c at level 100, k at level 200) : prog_scope.
Notation "'do!' c 'in' k" := (bind c (fun _ => k))
  (at level 10, c at level 100, k at level 200) : prog_scope.
Local Open Scope prog_scope.

(** What a closure passed to the status updater can reach: the cluster
    (through the kube client and the clock) and the log.  It has no handle
    on the CRD client, the queue, the recorder or the runner. *)
Record Env (Cluster : Type) := {
  cluster : Cluster;
  glog : list LogLine
}.
Arguments cluster {Cluster} _.
Arguments glog {Cluster} _.

(** The outcome of [cache.Store.GetByKey]: an error, a miss ([exists] is
    false) or the cached object. *)
Inductive StoreItem :=
| GetByKeyError (err : error)
| Missing
| Found (item : SparkApplication).

(** The calls the controller issues, in the order it issues them.  A CRD
    client call is kept with what it returned. *)
Inductive Call :=
| Crd_Get (namespace name : string) (r : Result SparkApplication)
| Crd_Update (obj : SparkApplication) (r : Result SparkApplication)
| Queue_AddRateLimited (key : string)
| Queue_Forget (key : string)
| Queue_Done (key : string)
| HandleError (key : string) (err : error)
| Recorder_Eventf (obj : SparkApplication) (reason : string)
| Runner_submit (s : submission).

Record World (Cluster : Type) := {
  env : Env Cluster;
  calls : list Call
}.
Arguments env {Cluster} _.
Arguments calls {Cluster} _.

(** The collaborators behind the controller's interfaces.  Each client
    method takes the cluster state and returns the state it leaves, so an
    instance is free to script conflicts, deletions and clock ticks.

    Of this repository but outside this file, and therefore methods here:
    [util.NewHash32] ([Sum32] is the hash of all bytes written),
    [createSparkUIService], which receives the object by pointer and may
    write to it, and [buildSubmissionCommandArgs], which returns its slice
    and its error side by side. *)
Class Externals (Cluster : Type) := {
  store_GetByKey : string -> Prog Cluster StoreItem;
  queue_Get : Prog Cluster (string * bool);
  crd_Get : string -> string -> Prog Cluster (Result SparkApplication);
  crd_Update : SparkApplication -> Prog Cluster (Result SparkApplication);
  nodes_Get : string -> Prog Cluster (Result Node);
  UnixNano : Prog Cluster Z;
  Sum32 : string -> Z;
  createSparkUIService : SparkApplication -> Prog (Env Cluster) SparkApplication;
  buildSubmissionCommandArgs : SparkApplication -> list string * option error
}.

Section Controller.
Context {Cluster : Type} `{Externals Cluster}.

(** [E]: what a mutation closure may do.  [M]: what the controller does. *)
Definition E (A : Type) : Type := Prog (Env Cluster) A.
Definition M (A : Type) : Type := Prog (World Cluster) A.

Definition ext {A : Type} (f : Prog Cluster A) : E A :=
  fun e => let (a, c) := f (cluster e) in (a, {| cluster := c; glog := glog e |}).

Definition logE (sev : Severity) (fmt : string) : E unit :=
  fun e => (tt, {| cluster := cluster e;
                   glog := glog e ++ [{| severity := sev; format := fmt |}] |}).

Definition liftE {A : Type} (m : E A) : M A :=
  fun w => let (a, e) := m (env w) in (a, {| env := e; calls := calls w |}).

Definition logM (sev : Severity) (fmt : string) : M unit := liftE (logE sev fmt).

Definition call (c : Call) : M unit :=
  fun w => (tt, {| env := env w; calls := calls w ++ [c] |}).

Definition crdGet (namespace name : string) : M (Result SparkApplication) :=
  let! r := liftE (ext (crd_Get namespace name)) in
  do! call (Crd_Get namespace name r) in
  ret r.

Definition crdUpdate (obj : SparkApplication) : M (Result SparkApplication) :=
  let! r := liftE (ext (crd_Update obj)) in
  do! call (Crd_Update obj r) in
  ret r.

(** *** The status updater *)

Definition maximumUpdateRetries : nat := 3.

(** [tryUpdate] runs the closure on [toUpdate] in place; the caller reads
    the object afterwards, so it is returned next to Go's two results. *)
Definition tryUpdate (original toUpdate : SparkApplication)
    (updateFunc : SparkApplication -> E SparkApplication)
    : M (SparkApplication * (option SparkApplication * option error)) :=
  let! toUpdate := liftE (updateFunc toUpdate) in
  if DeepEqual (Status original) (Status toUpdate) then
    ret (toUpdate, (None, None))
  else
    let! r := crdUpdate toUpdate in
    match r with
    | Ok updated => ret (toUpdate, (Some updated, None))
    | Err err => ret (toUpdate, (None, Some err))
    end.

(** The loop of [updateSparkApplicationWithRetries] with [n] rounds left,
    then the code after the loop. *)
Fixpoint updateLoop (n : nat) (original toUpdate : SparkApplication)
    (updateFunc : SparkApplication -> E SparkApplication)
    (lastUpdateErr : option error) : M (option SparkApplication) :=
  match n with
  | O =>
      do! (match lastUpdateErr with
           | Some _ => logM ERROR "failed to update SparkApplication %s: %v"
           | None => ret tt
           end) in
      ret None
  | S n' =>
      let! (toUpdate, (updated, err)) := tryUpdate original toUpdate updateFunc in
      match err with
      | None => ret updated
      | Some err =>
          let name := Name toUpdate in
          let! r := crdGet (Namespace toUpdate) name in
          match r with
          | Err _ =>
              do! logM ERROR "failed to get SparkApplication %s: %v" in
              ret None
          | Ok toUpdate => updateLoop n' original toUpdate updateFunc (Some err)
          end
      end
  end.

Definition updateSparkApplicationWithRetries (original toUpdate : SparkApplication)
    (updateFunc : SparkApplication -> E SparkApplication)
    : M (option SparkApplication) :=
  updateLoop maximumUpdateRetries original toUpdate updateFunc None.

Definition getSparkApplicationFromStore (key : string) : M (Result SparkApplication) :=
  let! r := liftE (ext (store_GetByKey key)) in
  match r with
  | GetByKeyError err => ret (Err err)
  | Missing => ret (Err (StatusError StatusNotFound StatusReasonNotFound))
  | Found item => ret (Ok item)
  end.

(** *** Submission *)

(** [buildAppID]: <name>-<32-bit hash of name, namespace, UID and the
    clock's nanoseconds>. *)
Definition buildAppID (app : SparkApplication) : E string :=
  let! now := ext UnixNano in
  ret (Name app +:+ "-" +:+
       pretty (Sum32 (Name app +:+ Namespace app +:+ UID app +:+ pretty now))).

(** The closure [submitApp] hands to the status updater. *)
Definition submitAppUpdate (resubmission : bool) (toUpdate : SparkApplication)
    : E SparkApplication :=
  let toUpdate :=
    if resubmission then with_Status emptyStatus toUpdate else toUpdate in
  let! id := buildAppID toUpdate in
  let toUpdate := with_Status (with_AppID id (Status toUpdate)) toUpdate in
  let toUpdate :=
    with_Status (with_AppState (with_State NewState (AppState (Status toUpdate)))
                   (Status toUpdate)) toUpdate in
  createSparkUIService toUpdate.

Definition submitApp (app : SparkApplication) (resubmission : bool) : M unit :=
  let! updatedApp :=
    updateSparkApplicationWithRetries app (DeepCopy app) (submitAppUpdate resubmission) in
  match updatedApp with
  | None => ret tt
  | Some updatedApp =>
      let (submissionCmdArgs, err) := buildSubmissionCommandArgs updatedApp in
      do! (match err with
           | Some _ =>
               logM ERROR "failed to build the submission command for SparkApplication %s: %v"
           | None => ret tt
           end) in
      call (Runner_submit (newSubmission submissionCmdArgs updatedApp))
  end.

Definition syncSparkApplication (key : string) : M (option error) :=
  let! r := getSparkApplicationFromStore key in
  match r with
  | Err err => ret (Some err)
  | Ok app =>
      do! submitApp app false in
      ret None
  end.

(** *** The queue worker and the watch handlers *)

(** One round of the worker; the deferred [Done] runs last on both paths
    that took a key. *)
Definition processNextItem : M bool :=
  let! (key, quit) := liftE (ext queue_Get) in
  if quit then ret false
  else
    let! err := syncSparkApplication key in
    match err with
    | None =>
        do! call (Queue_Forget key) in
        do! call (Queue_Done key) in
        ret true
    | Some err =>
        do! call (HandleError key err) in
        do! call (Queue_AddRateLimited key) in
        do! call (Queue_Done key) in
        ret true
    end.

Definition onAdd (app : SparkApplication) : M unit :=
  do! call (Recorder_Eventf app "SparkApplicationSubmission") in
  let key := getApplicationKey (Namespace app) (Name app) in
  call (Queue_AddRateLimited key).

Definition onDelete (app : SparkApplication) : M unit :=
  do! call (Recorder_Eventf app "SparkApplicationDeletion") in
  let key := getApplicationKey (Namespace app) (Name app) in
  do! call (Queue_Forget key) in
  call (Queue_Done key).

(** *** Restart evaluation *)

Definition handleRestart (app : SparkApplication) : M unit :=
  if bool_decide (RestartPolicy_ (Spec app) = Never)
     || bool_decide (RestartPolicy_ (Spec app) = Undefined)
  then ret tt
  else if (bool_decide (State (AppState (Status app)) = FailedState)
           && bool_decide (RestartPolicy_ (Spec app) = OnFailure))
          || bool_decide (RestartPolicy_ (Spec app) = Always)
  then
    do! logM INFO "SparkApplication %s failed or terminated, restarting it with RestartPolicy %s" in
    do! call (Recorder_Eventf app "SparkApplicationResubmission") in
    submitApp app true
  else ret tt.

(** *** The driver-state consumer *)

Fixpoint firstExternalIP (addresses : list NodeAddress) : string :=
  match addresses with
  | [] => ""
  | address :: rest =>
      if bool_decide (Type_ address = NodeExternalIP) then Address address
      else firstExternalIP rest
  end.

Definition getNodeExternalIP (nodeName : string) : E string :=
  let! r := ext (nodes_Get nodeName) in
  match r with
  | Err _ =>
      do! logE ERROR "failed to get node %s" in
      ret ""
  | Ok node => ret (firstExternalIP (Addresses node))
  end.

Definition driverStateUpdateFunc (update : driverStateUpdate.t)
    (toUpdate : SparkApplication) : E SparkApplication :=
  let st := Status toUpdate in
  let st := with_DriverInfo (with_PodName (driverStateUpdate.podName update) (DriverInfo st)) st in
  let! st :=
    if bool_decide (driverStateUpdate.nodeName update <> "") then
      let! nodeIP := getNodeExternalIP (driverStateUpdate.nodeName update) in
      if bool_decide (nodeIP <> "") then
        ret (with_DriverInfo
               (with_WebUIAddress (nodeIP +:+ ":" +:+ pretty (WebUIPort (DriverInfo st)))
                  (DriverInfo st)) st)
      else ret st
    else ret st in
  let st :=
    with_AppState
      (with_State (driverPodPhaseToApplicationState (driverStateUpdate.podPhase update))
         (AppState st)) st in
  let st :=
    if negb (IsZero (driverStateUpdate.completionTime update))
    then with_CompletionTime (driverStateUpdate.completionTime update) st
    else st in
  ret (with_Status st toUpdate).

Definition processSingleDriverStateUpdate (update : driverStateUpdate.t)
    : M (option SparkApplication) :=
  do! logM V2 "Received driver state update for SparkApplication %s in namespace %s with phase %s" in
  let key := getApplicationKey (driverStateUpdate.appNamespace update)
               (driverStateUpdate.appName update) in
  let! r := getSparkApplicationFromStore key in
  match r with
  | Err err =>
      do! (if negb (IsNotFound err)
           then logM ERROR "failed to get SparkApplication %s in namespace %s from the store: %v"
           else ret tt) in
      ret None
  | Ok app =>
      let! updated :=
        updateSparkApplicationWithRetries app (DeepCopy app) (driverStateUpdateFunc update) in
      do! (match updated with
           | Some u =>
               if isAppTerminated (State (AppState (Status u)))
               then call (Recorder_Eventf u "SparkApplicationTermination")
               else ret tt
           | None => ret tt
           end) in
      ret updated
  end.

(** *** The app-state consumer *)

Definition appStateUpdateFunc (update : appStateUpdate.t)
    (toUpdate : SparkApplication) : E SparkApplication :=
  let st := Status toUpdate in
  let st := with_AppState (with_State (appStateUpdate.state update) (AppState st)) st in
  let st :=
    with_AppState (with_ErrorMessage (appStateUpdate.errorMessage update) (AppState st)) st in
  let st :=
    if negb (IsZero (appStateUpdate.submissionTime update))
    then with_SubmissionTime (appStateUpdate.submissionTime update) st
    else st in
  ret (with_Status st toUpdate).

Definition processSingleAppStateUpdate (update : appStateUpdate.t) : M unit :=
  let key := getApplicationKey (appStateUpdate.namespace update)
               (appStateUpdate.name update) in
  let! r := getSparkApplicationFromStore key in
  match r with
  | Err _ =>
      logM ERROR "failed to get SparkApplication %s in namespace %s from the store: %v"
  | Ok app =>
      let! updated :=
        updateSparkApplicationWithRetries app (DeepCopy app) (appStateUpdateFunc update) in
      match updated with
      | Some u =>
          if bool_decide (State (AppState (Status u)) = FailedSubmissionState)
          then call (Recorder_Eventf u "SparkApplicationSubmissionFailure")
          else ret tt
      | None => ret tt
      end
  end.

Fixpoint processAppStateUpdates (appStateReportingChan : list appStateUpdate.t) : M unit :=
  match appStateReportingChan with
  | [] => ret tt
  | update :: rest =>
      do! processSingleAppStateUpdate update in
      processAppStateUpdates rest
  end.

(** *** The executor-state consumer *)

Definition executorStateUpdateFunc (update : executorStateUpdate.t)
    (toUpdate : SparkApplication) : E SparkApplication :=
  let st := Status toUpdate in
  let st :=
    match ExecutorState st with
    | None => with_ExecutorState (Some ∅) st
    | Some _ => st
    end in
  let st :=
    if bool_decide (executorStateUpdate.state update <> ExecutorPendingState)
    then with_ExecutorState
           (<[executorStateUpdate.podName update := executorStateUpdate.state update]>
              <$> ExecutorState st) st
    else st in
  ret (with_Status st toUpdate).

Definition processSingleExecutorStateUpdate (update : executorStateUpdate.t) : M unit :=
  do! logM V2 "Received state update of executor %s for SparkApplication %s in namespace %s with state %s" in
  let key := getApplicationKey (executorStateUpdate.appNamespace update)
               (executorStateUpdate.appName update) in
  let! r := getSparkApplicationFromStore key in
  match r with
  | Err err =>
      if negb (IsNotFound err)
      then logM ERROR "failed to get SparkApplication %s in namespace %s from the store: %v"
      else ret tt
  | Ok app =>
      do! updateSparkApplicationWithRetries app (DeepCopy app) (executorStateUpdateFunc update) in
      ret tt
  end.

(** *** The pod-state consumer *)

(** One round of the loop over [podStateReportingChan]. *)
Definition processPodStateUpdate (update : podStateUpdate) : M unit :=
  match update with
  | DriverUpdate u =>
      let! updatedApp := processSingleDriverStateUpdate u in
      match updatedApp with
      | Some updatedApp =>
          if isAppTerminated (State (AppState (Status updatedApp)))
          then handleRestart updatedApp
          else ret tt
      | None => ret tt
      end
  | ExecutorUpdate u => processSingleExecutorStateUpdate u
  end.

(** The loop, over what the channel delivers until it is closed. *)
Fixpoint processPodStateUpdates (podStateReportingChan : list podStateUpdate) : M unit :=
  match podStateReportingChan with
  | [] => ret tt
  | update :: rest =>
      do! processPodStateUpdate update in
      processPodStateUpdates rest
  end.
End Controller.

Arguments E Cluster A : clear implicits.
Arguments M Cluster A : clear implicits.

(** ** Reading a run *)

Definition isUpdate (c : Call) : bool :=
  match c with
  | Crd_Update _ _ => true
  | _ => false
  end.

(** The number of persistence attempts in a trace. *)
Definition persistenceAttempts (cs : list Call) : nat := length (List.filter isUpdate cs).

(** The calls issued between two worlds of one run. *)
Definition callsSince {Cluster : Type} (w w' : World Cluster) : list Call :=
  drop (length (calls w)) (calls w').

(** Where the payload of an [Update] comes from: the closure applied to
    the copy the caller passed or to a copy a [Get] of this run fetched. *)
Definition fromBase {Cluster : Type} (f : SparkApplication -> E Cluster SparkApplication)
    (toUpdate : SparkApplication) (new : list Call) (x : SparkApplication) : Prop :=
  exists base e,
    (base = toUpdate \/ exists namespace name, In (Crd_Get namespace name (Ok base)) new)
    /\ x = fst (f base e).

(** The entries of the executor-state mapping; a nil map has none. *)
Definition executorEntries (st : SparkApplicationStatus) : gmap string ExecutorStateType :=
  default ∅ (ExecutorState st).

(** ** Classes of calls *)

Definition isGet (c : Call) : bool :=
  match c with
  | Crd_Get _ _ _ => true
  | _ => false
  end.

(** An [Update] the API server accepted. *)
Definition isAccepted (c : Call) : bool :=
  match c with
  | Crd_Update _ (Ok _) => true
  | _ => false
  end.

Definition isCrd (c : Call) : bool :=
  match c with
  | Crd_Get _ _ _ | Crd_Update _ _ => true
  | _ => false
  end.

Definition isSubmit (c : Call) : bool :=
  match c with
  | Runner_submit _ => true
  | _ => false
  end.

Definition isEvent (c : Call) : bool :=
  match c with
  | Recorder_Eventf _ _ => true
  | _ => false
  end.

Definition isDone (c : Call) : bool :=
  match c with
  | Queue_Done _ => true
  | _ => false
  end.

Definition isForget (c : Call) : bool :=
  match c with
  | Queue_Forget _ => true
  | _ => false
  end.

Definition isAddRateLimited (c : Call) : bool :=
  match c with
  | Queue_AddRateLimited _ => true
  | _ => false
  end.

Definition isHandleError (c : Call) : bool :=
  match c with
  | HandleError _ _ => true
  | _ => false
  end.

Definition countCalls (p : Call -> bool) (cs : list Call) : nat :=
  length (List.filter p cs).

(** The shape of what one run of the status updater adds to the trace, with
    what it returns: rejected writes, each followed by a successful [Get] of
    the object just sent, and then nothing more, or one accepted write, or
    one rejected write and a failed [Get]. *)
Inductive rounds : list Call -> option SparkApplication -> Prop :=
| rounds_stop : rounds [] None
| rounds_accepted (obj updated : SparkApplication) :
    rounds [Crd_Update obj (Ok updated)] (Some updated)
| rounds_lost (obj : SparkApplication) (err err' : error) :
    rounds [Crd_Update obj (Err err); Crd_Get (Namespace obj) (Name obj) (Err err')] None
| rounds_again (obj fetched : SparkApplication) (err : error)
    (rest : list Call) (res : option SparkApplication) :
    rounds rest res ->
    rounds (Crd_Update obj (Err err) :: Crd_Get (Namespace obj) (Name obj) (Ok fetched) :: rest)
      res.

(** [hasSlash s]: the string holds a '/'. *)
Fixpoint hasSlash (s : string) : bool :=
  match s with
  | EmptyString => false
  | String c rest => bool_decide (c = "/"%char) || hasSlash rest
  end.

(** ** A fake cluster

    In the manner of client-go's fake clientsets: an informer cache, a queue
    of keys, an API server that holds one object and rejects the next
    [conflicts] updates with a conflict, and a clock that ticks on every
    reading. *)
Module Fake.
Record t := {
  cache : gmap string SparkApplication;
  queued : list string;
  conflicts : nat;
  stored : option SparkApplication;
  nanos : Z
}.

Definition GetByKey (key : string) : Prog t StoreItem :=
  fun c => match cache c !! key with
           | Some item => (Found item, c)
           | None => (Missing, c)
           end.

Definition QueueGet : Prog t (string * bool) :=
  fun c => match queued c with
           | key :: rest =>
               ((key, false),
                {| cache := cache c; queued := rest; conflicts := conflicts c;
                   stored := stored c; nanos := nanos c |})
           | [] => (("", true), c)
           end.

Definition Get (namespace name : string) : Prog t (Result SparkApplication) :=
  fun c => match stored c with
           | Some obj => (Ok obj, c)
           | None => (Err (StatusError StatusNotFound StatusReasonNotFound), c)
           end.

Definition Update (obj : SparkApplication) : Prog t (Result SparkApplication) :=
  fun c => match conflicts c with
           | S n =>
               (Err (StatusError 409 StatusReasonConflict),
                {| cache := cache c; queued := queued c; conflicts := n;
                   stored := stored c; nanos := nanos c |})
           | O =>
               (Ok obj,
                {| cache := cache c; queued := queued c; conflicts := O;
                   stored := Some obj; nanos := nanos c |})
           end.

Definition NodesGet (nodeName : string) : Prog t (Result Node) :=
  fun c => (Ok {| Addresses := [ {| Type_ := "InternalIP"; Address := "10.0.0.7" |};
                                 {| Type_ := NodeExternalIP; Address := "203.0.113.7" |} ] |},
            c).

Definition Now : Prog t Z :=
  fun c => (nanos c,
            {| cache := cache c; queued := queued c; conflicts := conflicts c;
               stored := stored c; nanos := nanos c + 1 |}).

Definition hash (bytes : string) : Z := Z.of_nat (String.length bytes).

(** The service is created elsewhere; the object is left as it is. *)
Definition uiService (obj : SparkApplication) : Prog (Env t) SparkApplication :=
  fun e => (obj, e).

(** Building the arguments fails for an application without a name. *)
Definition buildArgs (obj : SparkApplication) : list string * option error :=
  if bool_decide (Name obj = "")
  then ([], Some (OtherError "application name is missing"))
  else (["spark-submit"; "--name"; Name obj], None).

#[global] Instance externals : Externals t := {|
  store_GetByKey := GetByKey;
  queue_Get := QueueGet;
  crd_Get := Get;
  crd_Update := Update;
  nodes_Get := NodesGet;
  UnixNano := Now;
  Sum32 := hash;
  createSparkUIService := uiService;
  buildSubmissionCommandArgs := buildArgs
|}.

Definition status0 : SparkApplicationStatus := {|
  AppID := "wordcount-41";
  SubmissionTime := 1000;
  CompletionTime := 2000;
  DriverInfo := {| PodName := "wordcount-driver"; WebUIAddress := "203.0.113.7:4040";
                   WebUIPort := 4040 |};
  AppState := {| State := FailedState; ErrorMessage := "driver pod failed" |};
  ExecutorState := Some {[ "exec-1" := ExecutorOtherState "RUNNING" ]}
|}.

Definition wordcount (policy : RestartPolicy) (st : SparkApplicationStatus)
    : SparkApplication :=
  {| Name := "wordcount"; Namespace := "ns1"; UID := "uid-1";
     Spec := {| RestartPolicy_ := policy |}; Status := st |}.

Definition nameless : SparkApplication :=
  {| Name := ""; Namespace := "ns1"; UID := "uid-2";
     Spec := {| RestartPolicy_ := Never |}; Status := emptyStatus |}.

Definition world (c : t) : World t :=
  {| env := {| cluster := c; glog := [] |}; calls := [] |}.

(** A cluster whose cache holds [obj] under [key], with [key] queued and
    [n] conflicts ahead. *)
Definition holding (key : string) (obj : SparkApplication) (n : nat) : t :=
  {| cache := {[ key := obj ]}; queued := [key]; conflicts := n;
     stored := Some obj; nanos := 1514764800000000000 |}.

(** The same, with an API server that already holds [newer]. *)
Definition stale (key : string) (obj newer : SparkApplication) (n : nat) : t :=
  {| cache := {[ key := obj ]}; queued := [key]; conflicts := n;
     stored := Some newer; nanos := 1514764800000000000 |}.

Definition executorPending : executorStateUpdate.t :=
  {| executorStateUpdate.appNamespace := "ns1";
     executorStateUpdate.appName := "wordcount";
     executorStateUpdate.podName := "exec-2";
     executorStateUpdate.executorID := "2";
     executorStateUpdate.state := ExecutorPendingState |}.

Definition executorRunning : executorStateUpdate.t :=
  {| executorStateUpdate.appNamespace := "ns1";
     executorStateUpdate.appName := "wordcount";
     executorStateUpdate.podName := "exec-2";
     executorStateUpdate.executorID := "2";
     executorStateUpdate.state := ExecutorOtherState "RUNNING" |}.

Definition driverFailed : driverStateUpdate.t :=
  {| driverStateUpdate.appNamespace := "ns1";
     driverStateUpdate.appName := "wordcount";
     driverStateUpdate.podName := "wordcount-driver";
     driverStateUpdate.nodeName := "node-7";
     driverStateUpdate.podPhase := PodFailed;
     driverStateUpdate.completionTime := 3000 |}.

(** A status as [submitApp] leaves it at the clock of [holding]. *)
Definition submitted : SparkApplicationStatus :=
  with_AppState {| State := NewState; ErrorMessage := "" |}
    (with_AppID "wordcount-36" emptyStatus).

Definition running : SparkApplicationStatus :=
  with_AppState {| State := RunningState; ErrorMessage := "" |} submitted.

(** The retry scenario: the cache holds a submitted job, the API server a
    newer version that is running with one executor, and the next two
    updates meet a conflict. *)
Definition cached : SparkApplication := wordcount Never submitted.

Definition newer : SparkApplication :=
  wordcount Never
    (with_ExecutorState (Some {[ "exec-1" := ExecutorOtherState "RUNNING" ]}) running).

Definition behind : World t := world (stale "ns1/wordcount" cached newer 2).

(** The restart scenario: a running job with policy OnFailure whose driver
    pod is then seen to have failed. *)
Definition watching : World t :=
  world (holding "ns1/wordcount" (wordcount OnFailure running) 0).

Definition failed : SparkApplication :=
  wordcount OnFailure
    {| AppID := "wordcount-36";
       SubmissionTime := 0;
       CompletionTime := 3000;
       DriverInfo := {| PodName := "wordcount-driver"; WebUIAddress := "203.0.113.7:0";
                        WebUIPort := 0 |};
       AppState := {| State := FailedState; ErrorMessage := "" |};
       ExecutorState := None |}.

(** A cluster whose queue still holds a key of an object that is gone. *)
Definition deleted (key : string) : t :=
  {| cache := ∅; queued := [key]; conflicts := O; stored := None;
     nanos := 1514764800000000000 |}.
End Fake.

(** ** A fake cluster whose nodes come and go

    The fake cluster above, with a kube client that finds a node only for
    the next [lookups] requests and then reports it gone. *)
Module Flaky.
Record t := {
  api : Fake.t;
  lookups : nat
}.

Definition lift {A : Type} (f : Prog Fake.t A) : Prog t A :=
  fun c => let (a, c') := f (api c) in (a, {| api := c'; lookups := lookups c |}).

Definition NodesGet (nodeName : string) : Prog t (Result Node) :=
  fun c => match lookups c with
           | S n =>
               (Ok {| Addresses := [ {| Type_ := NodeExternalIP;
                                        Address := "203.0.113.7" |} ] |},
                {| api := api c; lookups := n |})
           | O => (Err (StatusError StatusNotFound StatusReasonNotFound), c)
           end.

Definition uiService (obj : SparkApplication) : Prog (Env t) SparkApplication :=
  fun e => (obj, e).

#[global] Instance externals : Externals t := {|
  store_GetByKey := fun key => lift (Fake.GetByKey key);
  queue_Get := lift Fake.QueueGet;
  crd_Get := fun namespace name => lift (Fake.Get namespace name);
  crd_Update := fun obj => lift (Fake.Update obj);
  nodes_Get := NodesGet;
  UnixNano := lift Fake.Now;
  Sum32 := Fake.hash;
  createSparkUIService := uiService;
  buildSubmissionCommandArgs := Fake.buildArgs
|}.

(** A running job whose driver pod is known but whose address is not. *)
Definition driven : SparkApplication :=
  Fake.wordcount Never
    (with_DriverInfo {| PodName := "wordcount-driver"; WebUIAddress := "";
                        WebUIPort := 4040 |} Fake.running).

Definition driverRunning : driverStateUpdate.t :=
  {| driverStateUpdate.appNamespace := "ns1";
     driverStateUpdate.appName := "wordcount";
     driverStateUpdate.podName := "wordcount-driver";
     driverStateUpdate.nodeName := "node-7";
     driverStateUpdate.podPhase := PodRunning;
     driverStateUpdate.completionTime := 0 |}.

(** One conflict ahead, and the node is found once. *)
Definition world : World t :=
  {| env := {| cluster := {| api := Fake.stale "ns1/wordcount" driven driven 1;
                             lookups := 1 |};
               glog := [] |};
     calls := [] |}.
End Flaky.

(** ** The worker loop *)

Section Worker.
Context {Cluster : Type} `{Externals Cluster}.

Local Open Scope prog_scope.

(** [runWorker]: [for s.processNextItem() {}], with [fuel] rounds at most.
    The result tells whether the loop ended because the queue shut down
    ([true]) or because the fuel ran out ([false]). *)
Fixpoint runWorker (fuel : nat) : M Cluster bool :=
  match fuel with
  | O => ret false
  | S fuel' =>
      let! more := processNextItem in
      if more then runWorker fuel' else ret true
  end.
End Worker.

(** * Properties *)

Section Facts.
Context {Cluster : Type} `{Externals Cluster}.
Implicit Types (w : World Cluster) (e : Env Cluster).
Implicit Types (f : SparkApplication -> E Cluster SparkApplication).
Implicit Types (original toUpdate app : SparkApplication).
Implicit Types (new pre cs : list Call).

Local Open Scope prog_scope.

Lemma DeepEqual_true a b : a = b -> DeepEqual a b = true.
Proof. intros ->. unfold DeepEqual. by rewrite bool_decide_eq_true. Qed.

Lemma DeepEqual_false a b : a <> b -> DeepEqual a b = false.
Proof. intros Hne. unfold DeepEqual. by rewrite bool_decide_eq_false. Qed.

(** ** One step of each client call *)

Lemma crdGet_run namespace name w r c :
  crd_Get namespace name (cluster (env w)) = (r, c) ->
  crdGet namespace name w =
    (r, {| env := {| cluster := c; glog := glog (env w) |};
           calls := calls w ++ [Crd_Get namespace name r] |}).
Proof.
  intros Hget. unfold crdGet, bind, liftE, ext, call, ret. simpl.
  by rewrite Hget.
Qed.

Lemma crdUpdate_run obj w r c :
  crd_Update obj (cluster (env w)) = (r, c) ->
  crdUpdate obj w =
    (r, {| env := {| cluster := c; glog := glog (env w) |};
           calls := calls w ++ [Crd_Update obj r] |}).
Proof.
  intros Hupd. unfold crdUpdate, bind, liftE, ext, call, ret. simpl.
  by rewrite Hupd.
Qed.

(** ** [tryUpdate], case by case *)

Lemma tryUpdate_unchanged original toUpdate f w t' e' :
  f toUpdate (env w) = (t', e') ->
  Status original = Status t' ->
  tryUpdate original toUpdate f w =
    ((t', (None, None)), {| env := e'; calls := calls w |}).
Proof.
  intros Hf Heq. unfold tryUpdate, bind, liftE. rewrite Hf.
  by rewrite (DeepEqual_true _ _ Heq).
Qed.

Lemma tryUpdate_persisted original toUpdate f w t' e' updated c :
  f toUpdate (env w) = (t', e') ->
  Status original <> Status t' ->
  crd_Update t' (cluster e') = (Ok updated, c) ->
  tryUpdate original toUpdate f w =
    ((t', (Some updated, None)),
     {| env := {| cluster := c; glog := glog e' |};
        calls := calls w ++ [Crd_Update t' (Ok updated)] |}).
Proof.
  intros Hf Hne Hupd. unfold tryUpdate, bind, liftE. rewrite Hf.
  rewrite (DeepEqual_false _ _ Hne).
  by rewrite (crdUpdate_run t' {| env := e'; calls := calls w |} _ _ Hupd).
Qed.

Lemma tryUpdate_rejected original toUpdate f w t' e' err c :
  f toUpdate (env w) = (t', e') ->
  Status original <> Status t' ->
  crd_Update t' (cluster e') = (Err err, c) ->
  tryUpdate original toUpdate f w =
    ((t', (None, Some err)),
     {| env := {| cluster := c; glog := glog e' |};
        calls := calls w ++ [Crd_Update t' (Err err)] |}).
Proof.
  intros Hf Hne Hupd. unfold tryUpdate, bind, liftE. rewrite Hf.
  rewrite (DeepEqual_false _ _ Hne).
  by rewrite (crdUpdate_run t' {| env := e'; calls := calls w |} _ _ Hupd).
Qed.

(** ** The retry loop, case by case *)

Lemma updateLoop_unchanged n original toUpdate f last w t' e' :
  f toUpdate (env w) = (t', e') ->
  Status original = Status t' ->
  updateLoop (S n) original toUpdate f last w =
    (None, {| env := e'; calls := calls w |}).
Proof.
  intros Hf Heq. cbn [updateLoop]. unfold bind at 1.
  by rewrite (tryUpdate_unchanged _ _ _ _ _ _ Hf Heq).
Qed.

Lemma updateLoop_persisted n original toUpdate f last w t' e' updated c :
  f toUpdate (env w) = (t', e') ->
  Status original <> Status t' ->
  crd_Update t' (cluster e') = (Ok updated, c) ->
  updateLoop (S n) original toUpdate f last w =
    (Some updated,
     {| env := {| cluster := c; glog := glog e' |};
        calls := calls w ++ [Crd_Update t' (Ok updated)] |}).
Proof.
  intros Hf Hne Hupd. cbn [updateLoop]. unfold bind at 1.
  by rewrite (tryUpdate_persisted _ _ _ _ _ _ _ _ Hf Hne Hupd).
Qed.

(** A rejected write, then a successful re-fetch: the loop goes on with
    the same closure on the fetched copy. *)
Lemma updateLoop_retry n original toUpdate f last w t' e' err c fetched c' :
  f toUpdate (env w) = (t', e') ->
  Status original <> Status t' ->
  crd_Update t' (cluster e') = (Err err, c) ->
  crd_Get (Namespace t') (Name t') c = (Ok fetched, c') ->
  updateLoop (S n) original toUpdate f last w =
    updateLoop n original fetched f (Some err)
      {| env := {| cluster := c'; glog := glog e' |};
         calls := calls w ++ [Crd_Update t' (Err err);
                              Crd_Get (Namespace t') (Name t') (Ok fetched)] |}.
Proof.
  intros Hf Hne Hupd Hget. cbn [updateLoop]. unfold bind at 1.
  rewrite (tryUpdate_rejected _ _ _ _ _ _ _ _ Hf Hne Hupd).
  unfold bind at 1.
  erewrite crdGet_run by (simpl; exact Hget).
  simpl. by rewrite <- app_assoc.
Qed.

Lemma updateLoop_lost n original toUpdate f last w t' e' err c err' c' :
  f toUpdate (env w) = (t', e') ->
  Status original <> Status t' ->
  crd_Update t' (cluster e') = (Err err, c) ->
  crd_Get (Namespace t') (Name t') c = (Err err', c') ->
  updateLoop (S n) original toUpdate f last w =
    (None,
     {| env := {| cluster := c';
                  glog := glog e' ++
                    [{| severity := ERROR;
                        format := "failed to get SparkApplication %s: %v" |}] |};
        calls := calls w ++ [Crd_Update t' (Err err);
                             Crd_Get (Namespace t') (Name t') (Err err')] |}).
Proof.
  intros Hf Hne Hupd Hget. cbn [updateLoop]. unfold bind at 1.
  rewrite (tryUpdate_rejected _ _ _ _ _ _ _ _ Hf Hne Hupd).
  unfold bind at 1.
  erewrite crdGet_run by (simpl; exact Hget).
  simpl. by rewrite <- app_assoc.
Qed.

Lemma updateLoop_spent original toUpdate f err w :
  updateLoop 0 original toUpdate f (Some err) w =
    (None,
     {| env := {| cluster := cluster (env w);
                  glog := glog (env w) ++
                    [{| severity := ERROR;
                        format := "failed to update SparkApplication %s: %v" |}] |};
        calls := calls w |}).
Proof. reflexivity. Qed.

(** ** Reading the trace *)

Lemma callsSince_app w w' new : calls w' = calls w ++ new -> callsSince w w' = new.
Proof. intros Heq. unfold callsSince. rewrite Heq. apply drop_app_length. Qed.

Lemma persistenceAttempts_app cs cs' :
  persistenceAttempts (cs ++ cs') = (persistenceAttempts cs + persistenceAttempts cs')%nat.
Proof. unfold persistenceAttempts. by rewrite List.filter_app, length_app. Qed.

Lemma crdGet_inv namespace name w r w' :
  crdGet namespace name w = (r, w') ->
  calls w' = calls w ++ [Crd_Get namespace name r] /\ glog (env w') = glog (env w).
Proof.
  destruct (crd_Get namespace name (cluster (env w))) as [r0 c] eqn:Hget.
  rewrite (crdGet_run _ _ _ _ _ Hget). intros [= <- <-]. by simpl.
Qed.

(** What one attempt leaves behind: no call when the status is unchanged,
    one [Update] of the mutated object otherwise. *)
Lemma tryUpdate_inv original toUpdate f w t' res w' :
  tryUpdate original toUpdate f w = ((t', res), w') ->
  t' = fst (f toUpdate (env w)) /\
  ((res = (None, None) /\ Status original = Status t' /\ calls w' = calls w) \/
   (exists r, calls w' = calls w ++ [Crd_Update t' r] /\
              Status original <> Status t' /\
              res = match r with
                    | Ok updated => (Some updated, None)
                    | Err err => (None, Some err)
                    end)).
Proof.
  destruct (f toUpdate (env w)) as [t0 e0] eqn:Hf.
  destruct (decide (Status original = Status t0)) as [Heq|Hne].
  - rewrite (tryUpdate_unchanged _ _ _ _ _ _ Hf Heq). intros [= <- <- <-].
    split; [done|]. by left.
  - destruct (crd_Update t0 (cluster e0)) as [[updated|err] c] eqn:Hupd.
    + rewrite (tryUpdate_persisted _ _ _ _ _ _ _ _ Hf Hne Hupd). intros [= <- <- <-].
      split; [done|]. right. by exists (Ok updated).
    + rewrite (tryUpdate_rejected _ _ _ _ _ _ _ _ Hf Hne Hupd). intros [= <- <- <-].
      split; [done|]. right. by exists (Err err).
Qed.

Lemma tryUpdate_inv_rejected original toUpdate f w t' err w' :
  tryUpdate original toUpdate f w = ((t', (None, Some err)), w') ->
  t' = fst (f toUpdate (env w)) /\ calls w' = calls w ++ [Crd_Update t' (Err err)].
Proof.
  intros Htry. destruct (tryUpdate_inv _ _ _ _ _ _ _ Htry) as [-> Hcases].
  split; [done|]. destruct Hcases as [[[=] _]|[r (Hcalls & _ & Hres)]].
  destruct r; simplify_eq. done.
Qed.

Lemma tryUpdate_inv_persisted original toUpdate f w t' updated w' :
  tryUpdate original toUpdate f w = ((t', (Some updated, None)), w') ->
  t' = fst (f toUpdate (env w)) /\ calls w' = calls w ++ [Crd_Update t' (Ok updated)].
Proof.
  intros Htry. destruct (tryUpdate_inv _ _ _ _ _ _ _ Htry) as [-> Hcases].
  split; [done|]. destruct Hcases as [[[=] _]|[r (Hcalls & _ & Hres)]].
  destruct r; simplify_eq. done.
Qed.

Lemma fromBase_later f toUpdate fetched namespace name pre new x :
  In (Crd_Get namespace name (Ok fetched)) pre ->
  fromBase f fetched new x -> fromBase f toUpdate (pre ++ new) x.
Proof.
  intros Hin (base & e & Hbase & ->). exists base, e. split; [|done]. right.
  destruct Hbase as [->|(ns & nm & Hin')].
  - exists namespace, name. apply in_or_app. by left.
  - exists ns, nm. apply in_or_app. by right.
Qed.

(** The loop with [n] rounds left: what it adds to the trace. *)
Lemma updateLoop_run n original f : forall toUpdate last w,
  exists new,
    calls (snd (updateLoop n original toUpdate f last w)) = calls w ++ new
    /\ (persistenceAttempts new <= n)%nat
    /\ (forall u, fst (updateLoop n original toUpdate f last w) = Some u ->
                  exists pre x, new = pre ++ [Crd_Update x (Ok u)])
    /\ (forall x r, In (Crd_Update x r) new -> fromBase f toUpdate new x).
Proof.
  induction n as [|n IH]; intros toUpdate last w.
  - exists []. destruct last; simpl; rewrite app_nil_r; repeat split; try done; lia.
  - destruct (f toUpdate (env w)) as [t' e'] eqn:Hf.
    destruct (decide (Status original = Status t')) as [Heq|Hne].
    { rewrite (updateLoop_unchanged _ _ _ _ _ _ _ _ Hf Heq). exists []. simpl.
      rewrite app_nil_r. repeat split; try done. unfold persistenceAttempts; simpl; lia. }
    assert (Hpay : t' = fst (f toUpdate (env w))) by (by rewrite Hf).
    destruct (crd_Update t' (cluster e')) as [[updated|err] c] eqn:Hupd.
    { rewrite (updateLoop_persisted _ _ _ _ _ _ _ _ _ _ Hf Hne Hupd).
      exists [Crd_Update t' (Ok updated)]. simpl. repeat split.
      - unfold persistenceAttempts; simpl; lia.
      - intros u [= <-]. by exists [], t'.
      - intros x r [[= <- <-]|[]]. exists toUpdate, (env w). split; [by left|done]. }
    destruct (crd_Get (Namespace t') (Name t') c) as [[fetched|err'] c'] eqn:Hget.
    + rewrite (updateLoop_retry _ _ _ _ _ _ _ _ _ _ _ _ Hf Hne Hupd Hget).
      match goal with |- context [updateLoop n original fetched f (Some err) ?w1] =>
        destruct (IH fetched (Some err) w1) as (new & Hcalls & Hcount & Hres & Hfrom)
      end.
      exists ([Crd_Update t' (Err err); Crd_Get (Namespace t') (Name t') (Ok fetched)] ++ new).
      repeat split.
      * rewrite Hcalls. simpl. by rewrite <- app_assoc.
      * rewrite persistenceAttempts_app. unfold persistenceAttempts at 1. simpl. lia.
      * intros u Hu. destruct (Hres u Hu) as (pre & x & ->).
        exists ([Crd_Update t' (Err err); Crd_Get (Namespace t') (Name t') (Ok fetched)] ++ pre), x.
        by rewrite <- app_assoc.
      * intros x r Hin. apply in_app_or in Hin as [Hin|Hin].
        -- destruct Hin as [[= <- <-]|[[=]|[]]].
           exists toUpdate, (env w). split; [by left|done].
        -- eapply fromBase_later; [|by eapply Hfrom]. simpl. right. by left.
    + rewrite (updateLoop_lost _ _ _ _ _ _ _ _ _ _ _ _ Hf Hne Hupd Hget).
      exists [Crd_Update t' (Err err); Crd_Get (Namespace t') (Name t') (Err err')].
      simpl. repeat split.
      * unfold persistenceAttempts; simpl; lia.
      * intros u [=].
      * intros x r [[= <- <-]|[[=]|[]]]. exists toUpdate, (env w). split; [by left|done].
Qed.

(** ** The status updater *)

Lemma updateLoop_step_done n original toUpdate f last w t' updated w' :
  tryUpdate original toUpdate f w = ((t', (updated, None)), w') ->
  updateLoop (S n) original toUpdate f last w = (updated, w').
Proof. intros Htry. cbn [updateLoop]. unfold bind at 1. by rewrite Htry. Qed.

Lemma updateLoop_step_retry n original toUpdate f last w t' err w1 fetched w2 :
  tryUpdate original toUpdate f w = ((t', (None, Some err)), w1) ->
  crdGet (Namespace t') (Name t') w1 = (Ok fetched, w2) ->
  updateLoop (S n) original toUpdate f last w =
    updateLoop n original fetched f (Some err) w2.
Proof.
  intros Htry Hget. cbn [updateLoop]. unfold bind at 1. rewrite Htry.
  unfold bind at 1. by rewrite Hget.
Qed.

Lemma updateLoop_step_lost n original toUpdate f last w t' err w1 err' w2 :
  tryUpdate original toUpdate f w = ((t', (None, Some err)), w1) ->
  crdGet (Namespace t') (Name t') w1 = (Err err', w2) ->
  updateLoop (S n) original toUpdate f last w =
    (None,
     {| env := {| cluster := cluster (env w2);
                  glog := glog (env w2) ++
                    [{| severity := ERROR;
                        format := "failed to get SparkApplication %s: %v" |}] |};
        calls := calls w2 |}).
Proof.
  intros Htry Hget. cbn [updateLoop]. unfold bind at 1. rewrite Htry.
  unfold bind at 1. by rewrite Hget.
Qed.

(** No change: nothing is written, nothing is returned. *)
Lemma updater_unchanged original toUpdate f w :
  Status (fst (f toUpdate (env w))) = Status original ->
  updateSparkApplicationWithRetries original toUpdate f w =
    (None, {| env := snd (f toUpdate (env w)); calls := calls w |}).
Proof.
  intros Heq. destruct (f toUpdate (env w)) as [t' e'] eqn:Hf. simpl in *.
  unfold updateSparkApplicationWithRetries, maximumUpdateRetries.
  by apply (updateLoop_unchanged _ _ _ _ _ _ _ _ Hf).
Qed.

(** Three rejected writes: nothing is returned, and the last thing the
    updater did was to log an error. *)
Lemma updater_exhausted original toUpdate f w
    t1 err1 w1 b1 w1' t2 err2 w2 b2 w2' t3 err3 w3 r w3' :
  tryUpdate original toUpdate f w = ((t1, (None, Some err1)), w1) ->
  crdGet (Namespace t1) (Name t1) w1 = (Ok b1, w1') ->
  tryUpdate original b1 f w1' = ((t2, (None, Some err2)), w2) ->
  crdGet (Namespace t2) (Name t2) w2 = (Ok b2, w2') ->
  tryUpdate original b2 f w2' = ((t3, (None, Some err3)), w3) ->
  crdGet (Namespace t3) (Name t3) w3 = (r, w3') ->
  exists line,
    severity line = ERROR /\
    updateSparkApplicationWithRetries original toUpdate f w =
      (None, {| env := {| cluster := cluster (env w3');
                          glog := glog (env w3') ++ [line] |};
                calls := calls w3' |}).
Proof.
  intros H1 G1 H2 G2 H3 G3.
  unfold updateSparkApplicationWithRetries, maximumUpdateRetries.
  rewrite (updateLoop_step_retry _ _ _ _ _ _ _ _ _ _ _ H1 G1).
  rewrite (updateLoop_step_retry _ _ _ _ _ _ _ _ _ _ _ H2 G2).
  destruct r as [b3|err'].
  - rewrite (updateLoop_step_retry _ _ _ _ _ _ _ _ _ _ _ H3 G3).
    rewrite updateLoop_spent. eexists. split; [|reflexivity]. reflexivity.
  - rewrite (updateLoop_step_lost _ _ _ _ _ _ _ _ _ _ _ H3 G3).
    eexists. split; [|reflexivity]. reflexivity.
Qed.

(** C4: if the mutation leaves the copy's status deep-equal to the
    original's, the status updater returns nil and issues no call at all:
    in particular it makes zero persistence attempts. *)
Theorem status_update_without_change original toUpdate f w :
  Status (fst (f toUpdate (env w))) = Status original ->
  updateSparkApplicationWithRetries original toUpdate f w =
    (None, {| env := snd (f toUpdate (env w)); calls := calls w |})
  /\ persistenceAttempts
       (callsSince w (snd (updateSparkApplicationWithRetries original toUpdate f w))) = 0%nat.
Proof.
  intros Heq. rewrite (updater_unchanged _ _ _ _ Heq). split; [done|].
  by rewrite (callsSince_app w _ []) by (simpl; by rewrite app_nil_r).
Qed.

(** C3: the status updater makes at most three persistence attempts; after
    a rejected attempt it re-fetches the object, and goes on with the same
    mutation on the fetched copy, or logs and returns nil when the re-fetch
    fails; when all three attempts are rejected it logs an error and returns
    nil; and when the first two attempts are rejected and the third is
    accepted, it returns what the third [Update] returned, that [Update]
    carried the mutation applied to the copy fetched last, and exactly three
    attempts were made. *)
Theorem status_updater_retries original toUpdate f w :
  (persistenceAttempts
     (callsSince w (snd (updateSparkApplicationWithRetries original toUpdate f w)))
   <= 3)%nat
  /\ (forall n last t1 err1 w1 b1 w1',
        tryUpdate original toUpdate f w = ((t1, (None, Some err1)), w1) ->
        crdGet (Namespace t1) (Name t1) w1 = (Ok b1, w1') ->
        updateLoop (S n) original toUpdate f last w =
          updateLoop n original b1 f (Some err1) w1')
  /\ (forall n last t1 err1 w1 err' w1',
        tryUpdate original toUpdate f w = ((t1, (None, Some err1)), w1) ->
        crdGet (Namespace t1) (Name t1) w1 = (Err err', w1') ->
        updateLoop (S n) original toUpdate f last w =
          (None,
           {| env := {| cluster := cluster (env w1');
                        glog := glog (env w1') ++
                          [{| severity := ERROR;
                              format := "failed to get SparkApplication %s: %v" |}] |};
              calls := calls w1' |}))
  /\ (forall t1 err1 w1 b1 w1' t2 err2 w2 b2 w2' t3 err3 w3 r w3',
        tryUpdate original toUpdate f w = ((t1, (None, Some err1)), w1) ->
        crdGet (Namespace t1) (Name t1) w1 = (Ok b1, w1') ->
        tryUpdate original b1 f w1' = ((t2, (None, Some err2)), w2) ->
        crdGet (Namespace t2) (Name t2) w2 = (Ok b2, w2') ->
        tryUpdate original b2 f w2' = ((t3, (None, Some err3)), w3) ->
        crdGet (Namespace t3) (Name t3) w3 = (r, w3') ->
        exists line,
          severity line = ERROR /\
          updateSparkApplicationWithRetries original toUpdate f w =
            (None, {| env := {| cluster := cluster (env w3');
                                glog := glog (env w3') ++ [line] |};
                      calls := calls w3' |}))
  /\ (forall t1 err1 w1 b1 w1' t2 err2 w2 b2 w2' t3 updated w3,
        tryUpdate original toUpdate f w = ((t1, (None, Some err1)), w1) ->
        crdGet (Namespace t1) (Name t1) w1 = (Ok b1, w1') ->
        tryUpdate original b1 f w1' = ((t2, (None, Some err2)), w2) ->
        crdGet (Namespace t2) (Name t2) w2 = (Ok b2, w2') ->
        tryUpdate original b2 f w2' = ((t3, (Some updated, None)), w3) ->
        updateSparkApplicationWithRetries original toUpdate f w = (Some updated, w3)
        /\ t3 = fst (f b2 (env w2'))
        /\ callsSince w w3 =
             [Crd_Update t1 (Err err1); Crd_Get (Namespace t1) (Name t1) (Ok b1);
              Crd_Update t2 (Err err2); Crd_Get (Namespace t2) (Name t2) (Ok b2);
              Crd_Update t3 (Ok updated)]
        /\ persistenceAttempts (callsSince w w3) = 3%nat).
Proof.
  split; [|split; [|split; [|split]]].
  - unfold updateSparkApplicationWithRetries, maximumUpdateRetries.
    destruct (updateLoop_run 3 original f toUpdate None w) as (new & Hcalls & Hle & _).
    by rewrite (callsSince_app _ _ _ Hcalls).
  - intros n last t1 err1 w1 b1 w1' H1 G1. by eapply updateLoop_step_retry.
  - intros n last t1 err1 w1 err' w1' H1 G1. by eapply updateLoop_step_lost.
  - intros t1 err1 w1 b1 w1' t2 err2 w2 b2 w2' t3 err3 w3 r w3' H1 G1 H2 G2 H3 G3.
    by eapply updater_exhausted.
  - intros t1 err1 w1 b1 w1' t2 err2 w2 b2 w2' t3 updated w3 H1 G1 H2 G2 H3.
    destruct (tryUpdate_inv_rejected _ _ _ _ _ _ _ H1) as [_ C1].
    destruct (crdGet_inv _ _ _ _ _ G1) as [C2 _].
    destruct (tryUpdate_inv_rejected _ _ _ _ _ _ _ H2) as [_ C3].
    destruct (crdGet_inv _ _ _ _ _ G2) as [C4 _].
    destruct (tryUpdate_inv_persisted _ _ _ _ _ _ _ H3) as [Hpay C5].
    assert (Hsince : callsSince w w3 =
             [Crd_Update t1 (Err err1); Crd_Get (Namespace t1) (Name t1) (Ok b1);
              Crd_Update t2 (Err err2); Crd_Get (Namespace t2) (Name t2) (Ok b2);
              Crd_Update t3 (Ok updated)]).
    { apply callsSince_app. rewrite C5, C4, C3, C2, C1. by rewrite <- !app_assoc. }
    split; [|split; [exact Hpay|split; [exact Hsince|by rewrite Hsince]]].
    unfold updateSparkApplicationWithRetries, maximumUpdateRetries.
    rewrite (updateLoop_step_retry _ _ _ _ _ _ _ _ _ _ _ H1 G1).
    rewrite (updateLoop_step_retry _ _ _ _ _ _ _ _ _ _ _ H2 G2).
    by rewrite (updateLoop_step_done _ _ _ _ _ _ _ _ _ H3).
Qed.

(** ** Submission *)

Lemma submitApp_abandoned app resubmission w :
  Status (fst (submitAppUpdate resubmission (DeepCopy app) (env w))) = Status app ->
  submitApp app resubmission w =
    (tt, {| env := snd (submitAppUpdate resubmission (DeepCopy app) (env w));
            calls := calls w |}).
Proof.
  intros Heq. unfold submitApp, bind. by rewrite (updater_unchanged _ _ _ _ Heq).
Qed.

(** What [submitApp] adds to the trace comes after what was there. *)
Lemma submitApp_extends app resubmission w :
  exists new, calls (snd (submitApp app resubmission w)) = calls w ++ new.
Proof.
  unfold submitApp, bind, updateSparkApplicationWithRetries.
  destruct (updateLoop_run maximumUpdateRetries app (submitAppUpdate resubmission)
              (DeepCopy app) None w) as (new & Hcalls & _).
  destruct (updateLoop _ _ _ _ _ w) as [[updatedApp|] w1]; simpl in Hcalls.
  - destruct (buildSubmissionCommandArgs updatedApp) as [cmd [err|]];
      simpl; rewrite Hcalls, <- app_assoc; by eexists.
  - by exists new.
Qed.

(** C2: when building the submission command fails, the failure is logged
    and the submission is skipped.  The code logs the failure and then
    hands the submission to the runner all the same: this theorem states
    what the code does, with the arguments [buildSubmissionCommandArgs]
    returned next to its error. *)
Theorem submitApp_submits_after_build_failure app resubmission w updatedApp w1 cmd err :
  updateSparkApplicationWithRetries app (DeepCopy app) (submitAppUpdate resubmission) w =
    (Some updatedApp, w1) ->
  buildSubmissionCommandArgs updatedApp = (cmd, Some err) ->
  submitApp app resubmission w =
    (tt,
     {| env := {| cluster := cluster (env w1);
                  glog := glog (env w1) ++
                    [{| severity := ERROR;
                        format := "failed to build the submission command for SparkApplication %s: %v" |}] |};
        calls := calls w1 ++ [Runner_submit (newSubmission cmd updatedApp)] |}).
Proof.
  intros Hupd Hbuild. unfold submitApp, bind. rewrite Hupd, Hbuild. reflexivity.
Qed.

(** C9: the status updater returns nil when the mutation changed nothing
    and also when three writes were rejected, so its caller cannot tell the
    two apart; and [submitApp] returns without a call to the runner (without
    any call) whenever its mutation leaves the status deep-equal to the
    original's. *)
Theorem updater_nil_is_ambiguous app resubmission w :
  (forall original toUpdate f,
      Status (fst (f toUpdate (env w))) = Status original ->
      fst (updateSparkApplicationWithRetries original toUpdate f w) = None)
  /\ (forall original toUpdate f t1 err1 w1 b1 w1' t2 err2 w2 b2 w2' t3 err3 w3 r w3',
        tryUpdate original toUpdate f w = ((t1, (None, Some err1)), w1) ->
        crdGet (Namespace t1) (Name t1) w1 = (Ok b1, w1') ->
        tryUpdate original b1 f w1' = ((t2, (None, Some err2)), w2) ->
        crdGet (Namespace t2) (Name t2) w2 = (Ok b2, w2') ->
        tryUpdate original b2 f w2' = ((t3, (None, Some err3)), w3) ->
        crdGet (Namespace t3) (Name t3) w3 = (r, w3') ->
        fst (updateSparkApplicationWithRetries original toUpdate f w) = None)
  /\ (Status (fst (submitAppUpdate resubmission (DeepCopy app) (env w))) = Status app ->
      submitApp app resubmission w =
        (tt, {| env := snd (submitAppUpdate resubmission (DeepCopy app) (env w));
                calls := calls w |})).
Proof.
  split; [|split].
  - intros original toUpdate f Heq. by rewrite (updater_unchanged _ _ _ _ Heq).
  - intros original toUpdate f t1 err1 w1 b1 w1' t2 err2 w2 b2 w2' t3 err3 w3 r w3'
      H1 G1 H2 G2 H3 G3.
    destruct (updater_exhausted _ _ _ _ _ _ _ _ _ _ _ _ _ _ _ _ _ _ _
                H1 G1 H2 G2 H3 G3) as (line & _ & ->).
    reflexivity.
  - apply submitApp_abandoned.
Qed.

(** C7: on a resubmission the mutation of [submitApp] hands to
    [createSparkUIService] the object with an empty status in which only
    the fresh appID and the state New are set; when that helper leaves the
    status alone, this is the resulting status: driverInfo, executorState,
    submissionTime, completionTime and errorMessage are at their zero
    values, whatever the prior status was. *)
Theorem resubmission_resets_status app e :
  submitAppUpdate true app e =
    createSparkUIService
      (with_Status
         {| AppID := fst (buildAppID (with_Status emptyStatus app) e);
            SubmissionTime := 0;
            CompletionTime := 0;
            DriverInfo := {| PodName := ""; WebUIAddress := ""; WebUIPort := 0 |};
            AppState := {| State := NewState; ErrorMessage := "" |};
            ExecutorState := None |} app)
      (snd (buildAppID (with_Status emptyStatus app) e))
  /\ ((forall obj e', Status (fst (createSparkUIService obj e')) = Status obj) ->
      Status (fst (submitAppUpdate true app e)) =
        {| AppID := fst (buildAppID (with_Status emptyStatus app) e);
           SubmissionTime := 0;
           CompletionTime := 0;
           DriverInfo := {| PodName := ""; WebUIAddress := ""; WebUIPort := 0 |};
           AppState := {| State := NewState; ErrorMessage := "" |};
           ExecutorState := None |}).
Proof.
  assert (Hrun : submitAppUpdate true app e =
    createSparkUIService
      (with_Status
         {| AppID := fst (buildAppID (with_Status emptyStatus app) e);
            SubmissionTime := 0;
            CompletionTime := 0;
            DriverInfo := {| PodName := ""; WebUIAddress := ""; WebUIPort := 0 |};
            AppState := {| State := NewState; ErrorMessage := "" |};
            ExecutorState := None |} app)
      (snd (buildAppID (with_Status emptyStatus app) e))).
  { unfold submitAppUpdate, bind.
    by destruct (buildAppID (with_Status emptyStatus app) e) as [id e1]. }
  split; [exact Hrun|].
  intros Hframe. by rewrite Hrun, Hframe.
Qed.

(** ** The queue worker *)

(** C1: a key whose job is gone from the store is to be forgotten, neither
    re-enqueued nor reported.  The code turns the miss into a not-found
    error that [syncSparkApplication] returns as it is, so the worker
    reports the error and re-enqueues the key with backoff, and never
    forgets it: this theorem states what the code does. *)
Theorem processNextItem_requeues_missing_job w key c1 c2 :
  queue_Get (cluster (env w)) = ((key, false), c1) ->
  store_GetByKey key c1 = (Missing, c2) ->
  processNextItem w =
    (true,
     {| env := {| cluster := c2; glog := glog (env w) |};
        calls := calls w ++
          [HandleError key (StatusError StatusNotFound StatusReasonNotFound);
           Queue_AddRateLimited key;
           Queue_Done key] |}).
Proof.
  intros Hget Hstore.
  unfold processNextItem, syncSparkApplication, getSparkApplicationFromStore.
  unfold bind, liftE, ext, call, ret. rewrite Hget. simpl. rewrite Hstore. simpl.
  by rewrite <- !app_assoc.
Qed.

(** ** Restart evaluation *)

(** C5: [handleRestart] does nothing under Never and Undefined, resubmits
    under Always whatever the state, and under OnFailure resubmits a Failed
    job and leaves every other one, a Completed one among them; to
    resubmit is to record the resubmission event and call [submitApp] with
    resubmission set; and the pod-state consumer runs this evaluation on
    the updated object of a driver update exactly when its state is
    terminal. *)
Theorem restart_evaluation app w :
  match RestartPolicy_ (Spec app), State (AppState (Status app)) with
  | Never, _ | Undefined, _ => handleRestart app w = (tt, w)
  | OnFailure, FailedState | Always, _ =>
      handleRestart app w =
        (do! logM INFO "SparkApplication %s failed or terminated, restarting it with RestartPolicy %s" in
         do! call (Recorder_Eventf app "SparkApplicationResubmission") in
         submitApp app true) w
      /\ exists rest,
           calls (snd (handleRestart app w)) =
             calls w ++ Recorder_Eventf app "SparkApplicationResubmission" :: rest
  | OnFailure, _ => handleRestart app w = (tt, w)
  end
  /\ (forall u w0,
        processSingleDriverStateUpdate u w0 = (Some app, w) ->
        processPodStateUpdate (DriverUpdate u) w0 =
          if isAppTerminated (State (AppState (Status app)))
          then handleRestart app w
          else (tt, w)).
Proof.
  split.
  - assert (Hre : exists rest,
        calls (snd ((do! logM INFO "SparkApplication %s failed or terminated, restarting it with RestartPolicy %s" in
                     do! call (Recorder_Eventf app "SparkApplicationResubmission") in
                     submitApp app true) w)) =
          calls w ++ Recorder_Eventf app "SparkApplicationResubmission" :: rest).
    { unfold bind at 1 2. simpl.
      match goal with |- context [submitApp app true ?w1] =>
        destruct (submitApp_extends app true w1) as (new & Hnew)
      end.
      exists new. rewrite Hnew. simpl. by rewrite <- app_assoc. }
    unfold handleRestart in *.
    destruct (RestartPolicy_ (Spec app)), (State (AppState (Status app)));
      simpl in *; done.
  - intros u w0 Hdrv. unfold processPodStateUpdate, bind. rewrite Hdrv.
    by destruct (isAppTerminated _).
Qed.

(** ** The phase mapping *)

(** C6: the mapping from driver pod phase to application state is a
    function on every phase value: Pending gives Submitted, Running gives
    Running, Succeeded gives Completed, Failed gives Failed, and any other
    value gives Unknown. *)
Theorem driver_phase_mapping :
  driverPodPhaseToApplicationState PodPending = SubmittedState
  /\ driverPodPhaseToApplicationState PodRunning = RunningState
  /\ driverPodPhaseToApplicationState PodSucceeded = CompletedState
  /\ driverPodPhaseToApplicationState PodFailed = FailedState
  /\ (forall podPhase : PodPhase,
        podPhase <> PodPending -> podPhase <> PodRunning ->
        podPhase <> PodSucceeded -> podPhase <> PodFailed ->
        driverPodPhaseToApplicationState podPhase = UnknownState).
Proof.
  repeat split; try reflexivity.
  intros podPhase H1 H2 H3 H4. unfold driverPodPhaseToApplicationState.
  by rewrite !bool_decide_eq_false_2.
Qed.

(** ** The executor-state consumer *)

Lemma executorStateUpdateFunc_pending update toUpdate e :
  executorStateUpdate.state update = ExecutorPendingState ->
  executorEntries (Status (fst (executorStateUpdateFunc update toUpdate e))) =
    executorEntries (Status toUpdate).
Proof.
  intros Hpending. unfold executorStateUpdateFunc, executorEntries, ret. simpl.
  rewrite Hpending. rewrite bool_decide_eq_false_2 by (intros Hne; by apply Hne).
  destruct (ExecutorState (Status toUpdate)) as [m|] eqn:Hes; simpl; by rewrite ?Hes.
Qed.

Lemma getSparkApplicationFromStore_run key w :
  getSparkApplicationFromStore key w =
    (match fst (store_GetByKey key (cluster (env w))) with
     | GetByKeyError err => Err err
     | Missing => Err (StatusError StatusNotFound StatusReasonNotFound)
     | Found item => Ok item
     end,
     {| env := {| cluster := snd (store_GetByKey key (cluster (env w)));
                  glog := glog (env w) |};
        calls := calls w |}).
Proof.
  unfold getSparkApplicationFromStore, bind, liftE, ext, ret.
  by destruct (store_GetByKey key (cluster (env w))) as [[err| |item] c].
Qed.

(** Every object the executor-state consumer sends to [Update] is its
    mutation applied to the copy read from the store or to a copy fetched
    by a [Get] of the same run. *)
Lemma processSingleExecutorStateUpdate_writes update w :
  exists new,
    callsSince w (snd (processSingleExecutorStateUpdate update w)) = new
    /\ forall obj r,
         In (Crd_Update obj r) new ->
         exists base e,
           (fst (store_GetByKey
                   (getApplicationKey (executorStateUpdate.appNamespace update)
                      (executorStateUpdate.appName update))
                   (cluster (env w))) = Found base
            \/ exists namespace name, In (Crd_Get namespace name (Ok base)) new)
           /\ obj = fst (executorStateUpdateFunc update base e).
Proof.
  unfold processSingleExecutorStateUpdate.
  unfold bind at 1. simpl. unfold bind at 1.
  rewrite getSparkApplicationFromStore_run. simpl.
  destruct (store_GetByKey _ (cluster (env w))) as [[err| |item] c]; simpl.
  - exists []. split; [|by intros ? ? []].
    destruct (IsNotFound err); simpl; unfold callsSince; simpl; by rewrite drop_all.
  - exists []. split; [|by intros ? ? []].
    unfold callsSince; simpl. by rewrite drop_all.
  - unfold bind, updateSparkApplicationWithRetries.
    match goal with |- context [updateLoop _ item (DeepCopy item) ?f None ?w1] =>
      destruct (updateLoop_run maximumUpdateRetries item f (DeepCopy item) None w1)
        as (new & Hcalls & _ & _ & Hfrom);
      destruct (updateLoop maximumUpdateRetries item (DeepCopy item) f None w1)
        as [res w2]
    end.
    simpl in *. exists new. split; [by apply callsSince_app|].
    intros obj r Hin. destruct (Hfrom _ _ Hin) as (base & e & Hbase & ->).
    exists base, e. split; [|done].
    destruct Hbase as [->|Hget]; [by left|by right].
Qed.

(** C8: an executor update whose state is Pending leaves the entries of the
    executor-state mapping as they were, and so every object that
    processing such an update sends to [Update] carries the entries of the
    copy it was made from: the one read from the store or one fetched by a
    [Get] of the same run. *)
Theorem pending_executor_update_writes_no_entry update :
  executorStateUpdate.state update = ExecutorPendingState ->
  (forall toUpdate e,
      executorEntries (Status (fst (executorStateUpdateFunc update toUpdate e))) =
        executorEntries (Status toUpdate))
  /\ (forall w obj r,
        In (Crd_Update obj r)
           (callsSince w (snd (processSingleExecutorStateUpdate update w))) ->
        exists base,
          (fst (store_GetByKey
                  (getApplicationKey (executorStateUpdate.appNamespace update)
                     (executorStateUpdate.appName update))
                  (cluster (env w))) = Found base
           \/ exists namespace name,
                In (Crd_Get namespace name (Ok base))
                   (callsSince w (snd (processSingleExecutorStateUpdate update w))))
          /\ executorEntries (Status obj) = executorEntries (Status base)).
Proof.
  intros Hpending. split.
  - intros toUpdate e. by apply executorStateUpdateFunc_pending.
  - intros w obj r.
    destruct (processSingleExecutorStateUpdate_writes update w) as (new & -> & Hnew).
    intros Hin. destruct (Hnew _ _ Hin) as (base & e & Hbase & ->).
    exists base. split; [done|]. by apply executorStateUpdateFunc_pending.
Qed.

(** The first call of the updater when the mutation changes the status. *)
Lemma updater_first_write original toUpdate f w :
  Status original <> Status (fst (f toUpdate (env w))) ->
  exists r rest,
    callsSince w (snd (updateSparkApplicationWithRetries original toUpdate f w)) =
      Crd_Update (fst (f toUpdate (env w))) r :: rest.
Proof.
  intros Hne. unfold updateSparkApplicationWithRetries, maximumUpdateRetries.
  destruct (f toUpdate (env w)) as [t' e'] eqn:Hf. simpl in Hne.
  destruct (crd_Update t' (cluster e')) as [[updated|err] c] eqn:Hupd.
  { rewrite (updateLoop_persisted _ _ _ _ _ _ _ _ _ _ Hf Hne Hupd).
    exists (Ok updated), []. by apply callsSince_app. }
  destruct (crd_Get (Namespace t') (Name t') c) as [[fetched|err'] c'] eqn:Hget.
  - rewrite (updateLoop_retry _ _ _ _ _ _ _ _ _ _ _ _ Hf Hne Hupd Hget).
    match goal with |- context [updateLoop 2 original fetched f (Some err) ?w1] =>
      destruct (updateLoop_run 2 original f fetched (Some err) w1) as (new & Hcalls & _)
    end.
    exists (Err err), (Crd_Get (Namespace t') (Name t') (Ok fetched) :: new).
    apply callsSince_app. rewrite Hcalls. simpl. by rewrite <- app_assoc.
  - rewrite (updateLoop_lost _ _ _ _ _ _ _ _ _ _ _ _ Hf Hne Hupd Hget).
    exists (Err err), [Crd_Get (Namespace t') (Name t') (Err err')].
    by apply callsSince_app.
Qed.

(** C10: the executor mutation leaves the entry of every pod other than the
    update's alone; on a job whose mapping is nil it always leaves a
    non-nil mapping, the empty one when the update is Pending, so that the
    status differs from the original's and the updater issues an [Update]
    although no entry was added. *)
Theorem executor_update_frame update toUpdate e :
  (forall pod,
      pod <> executorStateUpdate.podName update ->
      executorEntries (Status (fst (executorStateUpdateFunc update toUpdate e))) !! pod =
        executorEntries (Status toUpdate) !! pod)
  /\ (ExecutorState (Status toUpdate) = None ->
      (exists m, ExecutorState (Status (fst (executorStateUpdateFunc update toUpdate e)))
                 = Some m)
      /\ Status (fst (executorStateUpdateFunc update toUpdate e)) <> Status toUpdate
      /\ (executorStateUpdate.state update = ExecutorPendingState ->
          ExecutorState (Status (fst (executorStateUpdateFunc update toUpdate e))) = Some ∅
          /\ forall w, env w = e ->
               exists r rest,
                 callsSince w
                   (snd (updateSparkApplicationWithRetries toUpdate (DeepCopy toUpdate)
                           (executorStateUpdateFunc update) w)) =
                   Crd_Update (fst (executorStateUpdateFunc update toUpdate e)) r :: rest)).
Proof.
  split.
  - intros pod Hpod. unfold executorStateUpdateFunc, executorEntries, ret. simpl.
    destruct (ExecutorState (Status toUpdate)) as [m|] eqn:Hes; case_bool_decide;
      simpl; rewrite ?Hes; simpl; try done; by rewrite lookup_insert_ne.
  - intros Hnil.
    assert (Hdiff : Status (fst (executorStateUpdateFunc update toUpdate e))
                    <> Status toUpdate).
    { intros Heq. apply (f_equal ExecutorState) in Heq. rewrite Hnil in Heq.
      unfold executorStateUpdateFunc, ret in Heq. simpl in Heq. rewrite Hnil in Heq.
      by case_bool_decide. }
    split; [|split; [exact Hdiff|]].
    + unfold executorStateUpdateFunc, ret. simpl. rewrite Hnil.
      case_bool_decide; simpl; by eexists.
    + intros Hpending. split.
      * unfold executorStateUpdateFunc, ret. simpl. rewrite Hnil, Hpending.
        by rewrite bool_decide_eq_false_2 by (intros Hne; by apply Hne).
      * intros w <-. apply updater_first_write. unfold DeepCopy. by intros Heq.
Qed.
End Facts.

(** * The properties on the fake cluster *)

(** The worker on a key whose job was deleted: reported and re-enqueued. *)
Lemma processNextItem_requeues_missing_job_witness :
  processNextItem (Fake.world (Fake.deleted "ns1/wordcount")) =
    (true,
     {| env := {| cluster := {| Fake.cache := ∅; Fake.queued := [];
                                Fake.conflicts := 0; Fake.stored := None;
                                Fake.nanos := 1514764800000000000 |};
                  glog := [] |};
        calls := [HandleError "ns1/wordcount" (StatusError 404 "NotFound");
                  Queue_AddRateLimited "ns1/wordcount";
                  Queue_Done "ns1/wordcount"] |}).
Proof.
  eapply (processNextItem_requeues_missing_job
            (Fake.world (Fake.deleted "ns1/wordcount")) "ns1/wordcount");
    reflexivity.
Defined.

(** A job whose arguments cannot be built is submitted with no arguments. *)
Lemma submitApp_submits_after_build_failure_witness :
  Fake.buildArgs
    (with_Status (with_AppState {| State := NewState; ErrorMessage := "" |}
                    (with_AppID "-27" emptyStatus)) Fake.nameless)
    = ([], Some (OtherError "application name is missing"))
  /\ calls (snd (submitApp Fake.nameless false
                   (Fake.world (Fake.holding "ns1/" Fake.nameless 0)))) =
     [Crd_Update
        (with_Status (with_AppState {| State := NewState; ErrorMessage := "" |}
                        (with_AppID "-27" emptyStatus)) Fake.nameless)
        (Ok (with_Status (with_AppState {| State := NewState; ErrorMessage := "" |}
                            (with_AppID "-27" emptyStatus)) Fake.nameless));
      Runner_submit
        (newSubmission []
           (with_Status (with_AppState {| State := NewState; ErrorMessage := "" |}
                           (with_AppID "-27" emptyStatus)) Fake.nameless))].
Proof.
  split; [reflexivity|].
  erewrite (submitApp_submits_after_build_failure Fake.nameless false
              (Fake.world (Fake.holding "ns1/" Fake.nameless 0)));
    [| reflexivity | reflexivity].
  reflexivity.
Defined.

(** Two conflicts, then success: the result carries both executors, the one
    of the fetched copy and the one the mutation adds. *)
Lemma status_updater_retries_witness :
  fst (updateSparkApplicationWithRetries Fake.cached (DeepCopy Fake.cached)
         (executorStateUpdateFunc Fake.executorRunning) Fake.behind)
    = Some (Fake.wordcount Never
              (with_ExecutorState
                 (Some {[ "exec-1" := ExecutorOtherState "RUNNING";
                          "exec-2" := ExecutorOtherState "RUNNING" ]})
                 Fake.running))
  /\ persistenceAttempts
       (callsSince Fake.behind
          (snd (updateSparkApplicationWithRetries Fake.cached (DeepCopy Fake.cached)
                  (executorStateUpdateFunc Fake.executorRunning) Fake.behind))) = 3%nat.
Proof.
  pose (a1 := tryUpdate Fake.cached (DeepCopy Fake.cached)
                (executorStateUpdateFunc Fake.executorRunning) Fake.behind).
  pose (g1 := crdGet (Namespace (fst (fst a1))) (Name (fst (fst a1))) (snd a1)).
  pose (a2 := tryUpdate Fake.cached Fake.newer
                (executorStateUpdateFunc Fake.executorRunning) (snd g1)).
  pose (g2 := crdGet (Namespace (fst (fst a2))) (Name (fst (fst a2))) (snd a2)).
  pose (a3 := tryUpdate Fake.cached Fake.newer
                (executorStateUpdateFunc Fake.executorRunning) (snd g2)).
  destruct (proj2 (proj2 (proj2 (proj2
              (status_updater_retries Fake.cached (DeepCopy Fake.cached)
                 (executorStateUpdateFunc Fake.executorRunning) Fake.behind))))
              (fst (fst a1)) (StatusError 409 StatusReasonConflict) (snd a1)
              Fake.newer (snd g1)
              (fst (fst a2)) (StatusError 409 StatusReasonConflict) (snd a2)
              Fake.newer (snd g2)
              (fst (fst a3))
              (Fake.wordcount Never
                 (with_ExecutorState
                    (Some {[ "exec-1" := ExecutorOtherState "RUNNING";
                             "exec-2" := ExecutorOtherState "RUNNING" ]})
                    Fake.running))
              (snd a3))
    as (Hrun & _ & _ & Hcount);
    [vm_compute; reflexivity | vm_compute; reflexivity | vm_compute; reflexivity
    | vm_compute; reflexivity | vm_compute; reflexivity |].
  rewrite Hrun. split; [reflexivity | exact Hcount].
Defined.

(** A Pending executor update on a job with a mapping changes nothing. *)
Lemma status_update_without_change_witness :
  updateSparkApplicationWithRetries
    (Fake.wordcount Never Fake.status0)
    (DeepCopy (Fake.wordcount Never Fake.status0))
    (executorStateUpdateFunc Fake.executorPending)
    (Fake.world (Fake.holding "ns1/wordcount" (Fake.wordcount Never Fake.status0) 0))
  = (None,
     Fake.world (Fake.holding "ns1/wordcount" (Fake.wordcount Never Fake.status0) 0)).
Proof.
  apply (proj1 (status_update_without_change
                  (Fake.wordcount Never Fake.status0)
                  (DeepCopy (Fake.wordcount Never Fake.status0))
                  (executorStateUpdateFunc Fake.executorPending)
                  (Fake.world (Fake.holding "ns1/wordcount"
                                 (Fake.wordcount Never Fake.status0) 0))
                  eq_refl)).
Defined.

(** A failed driver of an OnFailure job leads to the restart evaluation. *)
Lemma restart_evaluation_witness :
  processPodStateUpdate (DriverUpdate Fake.driverFailed) Fake.watching
  = handleRestart Fake.failed
      (snd (processSingleDriverStateUpdate Fake.driverFailed Fake.watching)).
Proof.
  rewrite (proj2 (restart_evaluation Fake.failed
                    (snd (processSingleDriverStateUpdate Fake.driverFailed Fake.watching)))
             Fake.driverFailed Fake.watching)
    by (vm_compute; reflexivity).
  reflexivity.
Defined.

(** A phase the controller does not name. *)
Lemma driver_phase_mapping_witness :
  driverPodPhaseToApplicationState "Unknown" = UnknownState.
Proof.
  apply (proj2 (proj2 (proj2 (proj2 driver_phase_mapping)))); discriminate.
Defined.

(** Resubmitting a job that had failed with a full status. *)
Lemma resubmission_resets_status_witness :
  Status (fst (submitAppUpdate true (Fake.wordcount Always Fake.status0)
                 (env (Fake.world (Fake.holding "ns1/wordcount"
                                     (Fake.wordcount Always Fake.status0) 0)))))
  = {| AppID := "wordcount-36";
       SubmissionTime := 0;
       CompletionTime := 0;
       DriverInfo := {| PodName := ""; WebUIAddress := ""; WebUIPort := 0 |};
       AppState := {| State := NewState; ErrorMessage := "" |};
       ExecutorState := None |}.
Proof.
  rewrite (proj2 (@resubmission_resets_status Fake.t Fake.externals
                    (Fake.wordcount Always Fake.status0)
                    (env (Fake.world (Fake.holding "ns1/wordcount"
                                        (Fake.wordcount Always Fake.status0) 0))))
             (fun obj e' => eq_refl)).
  vm_compute. reflexivity.
Defined.

(** A Pending update for exec-2 leaves exec-1 as the only entry. *)
Lemma pending_executor_update_writes_no_entry_witness :
  executorEntries
    (Status (fst (executorStateUpdateFunc Fake.executorPending
                    (Fake.wordcount Never Fake.status0)
                    (env (Fake.world (Fake.holding "ns1/wordcount"
                                        (Fake.wordcount Never Fake.status0) 0))))))
  = {[ "exec-1" := ExecutorOtherState "RUNNING" ]}.
Proof.
  apply (proj1 (pending_executor_update_writes_no_entry Fake.executorPending eq_refl)).
Defined.

(** A job whose status already is what [submitApp] would write: only the
    clock has moved, and nothing was submitted. *)
Lemma updater_nil_is_ambiguous_witness :
  submitApp (Fake.wordcount Never Fake.submitted) false
    (Fake.world (Fake.holding "ns1/wordcount" (Fake.wordcount Never Fake.submitted) 0))
  = (tt,
     {| env := {| cluster := {| Fake.cache :=
                                  {[ "ns1/wordcount" := Fake.wordcount Never Fake.submitted ]};
                                Fake.queued := ["ns1/wordcount"];
                                Fake.conflicts := 0;
                                Fake.stored := Some (Fake.wordcount Never Fake.submitted);
                                Fake.nanos := 1514764800000000001 |};
                  glog := [] |};
        calls := [] |}).
Proof.
  rewrite (proj2 (proj2 (@updater_nil_is_ambiguous Fake.t Fake.externals
                           (Fake.wordcount Never Fake.submitted) false
                           (Fake.world (Fake.holding "ns1/wordcount"
                                          (Fake.wordcount Never Fake.submitted) 0)))))
    by (vm_compute; reflexivity).
  vm_compute. reflexivity.
Defined.

(** A Pending update on a job with a nil mapping is written as an empty one. *)
Lemma executor_update_frame_witness :
  ExecutorState
    (Status (fst (executorStateUpdateFunc Fake.executorPending
                    (Fake.wordcount Never Fake.submitted)
                    (env (Fake.world (Fake.holding "ns1/wordcount"
                                        (Fake.wordcount Never Fake.submitted) 0))))))
  = Some ∅
  /\ exists r rest,
       calls (snd (updateSparkApplicationWithRetries
                     (Fake.wordcount Never Fake.submitted)
                     (DeepCopy (Fake.wordcount Never Fake.submitted))
                     (executorStateUpdateFunc Fake.executorPending)
                     (Fake.world (Fake.holding "ns1/wordcount"
                                    (Fake.wordcount Never Fake.submitted) 0))))
       = Crd_Update
           (Fake.wordcount Never (with_ExecutorState (Some ∅) Fake.submitted)) r :: rest.
Proof.
  destruct (proj2 (executor_update_frame Fake.executorPending
                     (Fake.wordcount Never Fake.submitted)
                     (env (Fake.world (Fake.holding "ns1/wordcount"
                                         (Fake.wordcount Never Fake.submitted) 0))))
              eq_refl) as (_ & _ & Hpending).
  destruct (Hpending eq_refl) as [Hempty Hwrite].
  split; [exact Hempty|].
  destruct (Hwrite (Fake.world (Fake.holding "ns1/wordcount"
                                  (Fake.wordcount Never Fake.submitted) 0)) eq_refl)
    as (r & rest & Hcalls).
  exists r, rest. exact Hcalls.
Defined.

(** * Further properties of the controller *)

Section MoreFacts.
Context {Cluster : Type} `{Externals Cluster}.
Implicit Types (w : World Cluster) (e : Env Cluster).
Implicit Types (f : SparkApplication -> E Cluster SparkApplication).
Implicit Types (original toUpdate app : SparkApplication).
Implicit Types (new pre cs : list Call).

Local Open Scope prog_scope.

(** ** The trace of the status updater *)

Lemma countCalls_app p cs cs' :
  countCalls p (cs ++ cs') = (countCalls p cs + countCalls p cs')%nat.
Proof. unfold countCalls. by rewrite List.filter_app, length_app. Qed.

Lemma updateLoop_rounds n original f : forall toUpdate last w,
  exists new,
    calls (snd (updateLoop n original toUpdate f last w)) = calls w ++ new
    /\ rounds new (fst (updateLoop n original toUpdate f last w)).
Proof.
  induction n as [|n IH]; intros toUpdate last w.
  - exists []. destruct last; simpl; rewrite app_nil_r; split; try done; constructor.
  - destruct (f toUpdate (env w)) as [t' e'] eqn:Hf.
    destruct (decide (Status original = Status t')) as [Heq|Hne].
    { rewrite (updateLoop_unchanged _ _ _ _ _ _ _ _ Hf Heq). exists []. simpl.
      rewrite app_nil_r. split; [done|constructor]. }
    destruct (crd_Update t' (cluster e')) as [[updated|err] c] eqn:Hupd.
    { rewrite (updateLoop_persisted _ _ _ _ _ _ _ _ _ _ Hf Hne Hupd).
      exists [Crd_Update t' (Ok updated)]. simpl. split; [done|constructor]. }
    destruct (crd_Get (Namespace t') (Name t') c) as [[fetched|err'] c'] eqn:Hget.
    + rewrite (updateLoop_retry _ _ _ _ _ _ _ _ _ _ _ _ Hf Hne Hupd Hget).
      match goal with |- context [updateLoop n original fetched f (Some err) ?w1] =>
        destruct (IH fetched (Some err) w1) as (new & Hcalls & Hrounds)
      end.
      exists (Crd_Update t' (Err err) :: Crd_Get (Namespace t') (Name t') (Ok fetched) :: new).
      split.
      * rewrite Hcalls. simpl. by rewrite <- app_assoc.
      * by constructor.
    + rewrite (updateLoop_lost _ _ _ _ _ _ _ _ _ _ _ _ Hf Hne Hupd Hget).
      exists [Crd_Update t' (Err err); Crd_Get (Namespace t') (Name t') (Err err')].
      simpl. split; [done|constructor].
Qed.

(** What the shape implies, in counts. *)
Lemma rounds_counts new res :
  rounds new res ->
  Forall (fun c => isCrd c = true) new
  /\ (countCalls isGet new <= persistenceAttempts new)%nat
  /\ (countCalls isAccepted new <= 1)%nat
  /\ (forall updated, res = Some updated <->
                      exists pre obj, new = pre ++ [Crd_Update obj (Ok updated)]).
Proof.
  induction 1 as [|obj updated|obj err err'|obj fetched err rest res Hrest IH].
  - repeat split; try done; try (unfold countCalls, persistenceAttempts; simpl; lia).
    intros (pre & obj & Heq). by destruct pre.
  - repeat split; try (unfold countCalls, persistenceAttempts; simpl; lia).
    + by repeat constructor.
    + intros [= <-]. by exists [], obj.
    + intros (pre & obj' & Heq). destruct pre as [|c [|c' pre]]; simpl in Heq; by simplify_eq.
  - repeat split; try done; try (unfold countCalls, persistenceAttempts; simpl; lia).
    + by repeat constructor.
    + intros (pre & obj' & Heq).
      destruct pre as [|c [|c' [|c'' pre]]]; simpl in Heq; by simplify_eq.
  - destruct IH as (Hcrd & Hgets & Hacc & Hres). repeat split.
    + by repeat constructor.
    + unfold countCalls, persistenceAttempts in *. simpl. lia.
    + unfold countCalls in *. simpl. lia.
    + intros Hsome. destruct (proj1 (Hres updated) Hsome) as (pre & obj' & ->).
      by exists (Crd_Update obj (Err err)
                 :: Crd_Get (Namespace obj) (Name obj) (Ok fetched) :: pre), obj'.
    + intros (pre & obj' & Heq). apply Hres.
      destruct pre as [|c [|c' pre]]; simpl in Heq; simplify_eq.
      by exists pre, obj'.
Qed.

(** X1: what a run of the status updater adds to the trace is a sequence of
    rejected writes, each followed by a successful [Get] of the namespace and
    name of the object just sent, ended by nothing (nil is returned), by one
    accepted write (its result is returned), or by a rejected write and a
    failed [Get] (nil is returned). *)
Theorem updater_trace_shape original toUpdate f w :
  rounds (callsSince w (snd (updateSparkApplicationWithRetries original toUpdate f w)))
    (fst (updateSparkApplicationWithRetries original toUpdate f w)).
Proof.
  unfold updateSparkApplicationWithRetries.
  destruct (updateLoop_rounds maximumUpdateRetries original f toUpdate None w)
    as (new & Hcalls & Hrounds).
  by rewrite (callsSince_app _ _ _ Hcalls).
Qed.

(** X2: a run of the status updater issues CRD client calls only, never
    more [Get]s than [Update]s, and at most one [Update] is accepted; it
    returns an object exactly when its last call is an accepted [Update],
    and then the object is the one that call returned. *)
Theorem updater_api_traffic original toUpdate f w :
  Forall (fun c => isCrd c = true)
    (callsSince w (snd (updateSparkApplicationWithRetries original toUpdate f w)))
  /\ (countCalls isGet
        (callsSince w (snd (updateSparkApplicationWithRetries original toUpdate f w)))
      <= persistenceAttempts
           (callsSince w (snd (updateSparkApplicationWithRetries original toUpdate f w))))%nat
  /\ (countCalls isAccepted
        (callsSince w (snd (updateSparkApplicationWithRetries original toUpdate f w)))
      <= 1)%nat
  /\ (forall updated,
        fst (updateSparkApplicationWithRetries original toUpdate f w) = Some updated <->
        exists pre obj,
          callsSince w (snd (updateSparkApplicationWithRetries original toUpdate f w)) =
            pre ++ [Crd_Update obj (Ok updated)]).
Proof.
  unfold updateSparkApplicationWithRetries.
  destruct (updateLoop_rounds maximumUpdateRetries original f toUpdate None w)
    as (new & Hcalls & Hrounds).
  rewrite (callsSince_app _ _ _ Hcalls). by apply rounds_counts.
Qed.

(** X3: a rejected write, then a re-fetch on which the mutation gives the
    status of the original: the updater stops there and returns nil, with no
    further call and no log line of its own. *)
Theorem updater_gives_up_silently original toUpdate f w t1 err1 w1 b1 w1' :
  tryUpdate original toUpdate f w = ((t1, (None, Some err1)), w1) ->
  crdGet (Namespace t1) (Name t1) w1 = (Ok b1, w1') ->
  Status (fst (f b1 (env w1'))) = Status original ->
  updateSparkApplicationWithRetries original toUpdate f w =
    (None, {| env := snd (f b1 (env w1')); calls := calls w1' |}).
Proof.
  intros Htry Hget Heq. unfold updateSparkApplicationWithRetries, maximumUpdateRetries.
  rewrite (updateLoop_step_retry _ _ _ _ _ _ _ _ _ _ _ Htry Hget).
  destruct (f b1 (env w1')) as [t2 e2] eqn:Hf. cbn [fst snd] in *.
  by apply (updateLoop_unchanged _ _ _ _ _ _ _ _ Hf).
Qed.

Lemma updater_rounds original toUpdate f w :
  exists new,
    calls (snd (updateSparkApplicationWithRetries original toUpdate f w)) = calls w ++ new
    /\ rounds new (fst (updateSparkApplicationWithRetries original toUpdate f w)).
Proof. apply updateLoop_rounds. Qed.

Lemma rounds_crd new res : rounds new res -> Forall (fun c => isCrd c = true) new.
Proof. intros Hr. by destruct (rounds_counts _ _ Hr). Qed.

Lemma countCalls_none p cs q :
  Forall (fun c => q c = true) cs ->
  (forall c, q c = true -> p c = false) ->
  countCalls p cs = 0%nat.
Proof.
  intros Hall Hpq. induction Hall as [|c cs Hc _ IH]; [done|].
  unfold countCalls in *. simpl. by rewrite (Hpq _ Hc).
Qed.

(** ** Submission *)

(** What [submitApp] adds to the trace: the rounds of the status updater,
    and one [submit] when the updater returned an object. *)
Lemma submitApp_run job resubmission w :
  exists new res,
    rounds new res
    /\ calls (snd (submitApp job resubmission w)) =
       calls w ++ new ++
         match res with
         | Some updatedApp =>
             [Runner_submit
                (newSubmission (fst (buildSubmissionCommandArgs updatedApp)) updatedApp)]
         | None => []
         end.
Proof.
  unfold submitApp, bind.
  destruct (updater_rounds job (DeepCopy job) (submitAppUpdate resubmission) w)
    as (new & Hcalls & Hrounds).
  destruct (updateSparkApplicationWithRetries _ _ _ w) as [[updatedApp|] w1];
    simpl in Hcalls, Hrounds.
  - exists new, (Some updatedApp). split; [done|].
    destruct (buildSubmissionCommandArgs updatedApp) as [cmd [err|]];
      simpl; rewrite Hcalls; by rewrite <- app_assoc.
  - exists new, None. split; [done|]. simpl. by rewrite app_nil_r.
Qed.

(** X4: [submitApp] hands at most one submission to the runner; when it does,
    this is its last call, it comes right after an [Update] the API server
    accepted, and the job submitted is the object that [Update] returned,
    with the arguments built from it.  Before the two, only CRD client calls
    were made. *)
Theorem submitApp_submits_what_was_persisted job resubmission w :
  (countCalls isSubmit (callsSince w (snd (submitApp job resubmission w))) <= 1)%nat
  /\ (forall s,
        In (Runner_submit s) (callsSince w (snd (submitApp job resubmission w))) ->
        args s = fst (buildSubmissionCommandArgs (app s))
        /\ exists pre obj,
             callsSince w (snd (submitApp job resubmission w)) =
               pre ++ [Crd_Update obj (Ok (app s)); Runner_submit s]
             /\ Forall (fun c => isCrd c = true) pre).
Proof.
  destruct (submitApp_run job resubmission w) as (new & res & Hrounds & Hcalls).
  rewrite (callsSince_app _ _ _ Hcalls).
  pose proof (rounds_crd _ _ Hrounds) as Hcrd.
  destruct (rounds_counts _ _ Hrounds) as (_ & _ & _ & Hres).
  assert (Hnone : countCalls isSubmit new = 0%nat).
  { apply (countCalls_none _ _ isCrd); [done|]. by intros []. }
  split.
  - rewrite countCalls_app, Hnone. destruct res; unfold countCalls; simpl; lia.
  - intros s Hin. apply in_app_or in Hin as [Hin|Hin].
    { rewrite Forall_forall in Hcrd. apply list_elem_of_In in Hin.
      by specialize (Hcrd _ Hin). }
    destruct res as [updatedApp|]; [|by destruct Hin].
    destruct Hin as [[= <-]|[]]. split; [done|].
    destruct (proj1 (Hres updatedApp) eq_refl) as (pre & obj & ->).
    exists pre, obj. split.
    + simpl. by rewrite <- app_assoc.
    + by apply Forall_app in Hcrd as [Hpre _].
Qed.

(** ** The queue worker *)

Lemma processNextItem_found_run w key c1 job c2 :
  queue_Get (cluster (env w)) = ((key, false), c1) ->
  store_GetByKey key c1 = (Found job, c2) ->
  processNextItem w =
    (true,
     {| env := env (snd (submitApp job false
                           {| env := {| cluster := c2; glog := glog (env w) |};
                              calls := calls w |}));
        calls := calls (snd (submitApp job false
                               {| env := {| cluster := c2; glog := glog (env w) |};
                                  calls := calls w |}))
                 ++ [Queue_Forget key; Queue_Done key] |}).
Proof.
  intros Hget Hstore.
  unfold processNextItem, syncSparkApplication, getSparkApplicationFromStore.
  unfold bind, liftE, ext, call, ret. rewrite Hget. simpl. rewrite Hstore. simpl.
  destruct (submitApp job false _) as [[] w2]. simpl. by rewrite <- app_assoc.
Qed.

(** X5: when the store holds the job of the key the worker took, the round
    ends by forgetting the key and marking it done, whatever became of the
    submission: before these two calls only CRD client calls and a
    submission were made, so no error is reported and the key is not
    re-enqueued, also when the status update was given up. *)
Theorem processNextItem_forgets_found_job w key c1 job c2 :
  queue_Get (cluster (env w)) = ((key, false), c1) ->
  store_GetByKey key c1 = (Found job, c2) ->
  fst (processNextItem w) = true
  /\ exists new,
       callsSince w (snd (processNextItem w)) = new ++ [Queue_Forget key; Queue_Done key]
       /\ Forall (fun c => isCrd c || isSubmit c = true) new.
Proof.
  intros Hget Hstore. rewrite (processNextItem_found_run _ _ _ _ _ Hget Hstore).
  match goal with |- context [submitApp job false ?w1] =>
    destruct (submitApp_run job false w1) as (new & res & Hrounds & Hcalls)
  end.
  simpl in *. split; [done|].
  exists (new ++ match res with
                 | Some updatedApp =>
                     [Runner_submit
                        (newSubmission (fst (buildSubmissionCommandArgs updatedApp))
                           updatedApp)]
                 | None => []
                 end).
  split.
  - apply callsSince_app. simpl. rewrite Hcalls. by rewrite <- !app_assoc.
  - apply Forall_app. split.
    + eapply Forall_impl; [exact (rounds_crd _ _ Hrounds)|].
      intros c Hc. simpl in Hc. by rewrite Hc.
    + destruct res; by repeat constructor.
Qed.

(** X6: when the queue is shut down the round returns false without any
    call, the key is not even marked done; when the store lookup fails with
    an error, that error is reported, the key is re-enqueued with backoff
    and marked done, and nothing else is called. *)
Theorem processNextItem_without_job w key :
  (forall c1,
      queue_Get (cluster (env w)) = ((key, true), c1) ->
      processNextItem w =
        (false, {| env := {| cluster := c1; glog := glog (env w) |}; calls := calls w |}))
  /\ (forall c1 err c2,
        queue_Get (cluster (env w)) = ((key, false), c1) ->
        store_GetByKey key c1 = (GetByKeyError err, c2) ->
        processNextItem w =
          (true,
           {| env := {| cluster := c2; glog := glog (env w) |};
              calls := calls w ++
                [HandleError key err; Queue_AddRateLimited key; Queue_Done key] |})).
Proof.
  split.
  - intros c1 Hget. unfold processNextItem, bind, liftE, ext, ret. by rewrite Hget.
  - intros c1 err c2 Hget Hstore.
    unfold processNextItem, syncSparkApplication, getSparkApplicationFromStore.
    unfold bind, liftE, ext, call, ret. rewrite Hget. simpl. rewrite Hstore. simpl.
    by rewrite <- !app_assoc.
Qed.

(** What one round of the worker adds to the trace, in counts. *)
Lemma processNextItem_counts w :
  exists new,
    calls (snd (processNextItem w)) = calls w ++ new
    /\ countCalls isDone new =
         (countCalls isForget new + countCalls isAddRateLimited new)%nat
    /\ countCalls isHandleError new = countCalls isAddRateLimited new
    /\ (fst (processNextItem w) = false -> new = []).
Proof.
  destruct (queue_Get (cluster (env w))) as [[key quit] c1] eqn:Hget.
  destruct quit.
  { rewrite (proj1 (processNextItem_without_job w key) c1 Hget). exists []. simpl.
    by rewrite app_nil_r. }
  destruct (store_GetByKey key c1) as [[err| |job] c2] eqn:Hstore.
  - rewrite (proj2 (processNextItem_without_job w key) c1 err c2 Hget Hstore).
    eexists. split; [reflexivity|]. by repeat split.
  - unfold processNextItem, syncSparkApplication, getSparkApplicationFromStore.
    unfold bind, liftE, ext, call, ret. rewrite Hget. simpl. rewrite Hstore. simpl.
    eexists. split; [by rewrite <- !app_assoc|]. by repeat split.
  - destruct (processNextItem_forgets_found_job w key c1 job c2 Hget Hstore)
      as (Htrue & new & Hsince & Hall).
    exists (new ++ [Queue_Forget key; Queue_Done key]).
    assert (Hq : forall p, (forall c, isCrd c || isSubmit c = true -> p c = false) ->
                           countCalls p new = 0%nat).
    { intros p Hp. by apply (countCalls_none p new (fun c => isCrd c || isSubmit c)). }
    split; [|split; [|split]].
    + unfold callsSince in Hsince. rewrite <- Hsince.
      rewrite (processNextItem_found_run _ _ _ _ _ Hget Hstore). simpl.
      match goal with |- context [submitApp job false ?w1] =>
        destruct (submitApp_run job false w1) as (new' & res & _ & Hcalls)
      end.
      simpl in Hcalls. rewrite Hcalls, <- !app_assoc. by rewrite drop_app_length.
    + rewrite !countCalls_app, !Hq by (by intros []). reflexivity.
    + rewrite !countCalls_app, !Hq by (by intros []). reflexivity.
    + intros Hfalse. by rewrite Htrue in Hfalse.
Qed.

(** X7: over the worker loop, however long it runs, every key is settled
    once: the keys marked done are as many as the keys forgotten plus the
    keys re-enqueued, and an error is reported exactly as often as a key is
    re-enqueued. *)
Theorem runWorker_settles_every_key fuel w :
  countCalls isDone (callsSince w (snd (runWorker fuel w))) =
    (countCalls isForget (callsSince w (snd (runWorker fuel w)))
     + countCalls isAddRateLimited (callsSince w (snd (runWorker fuel w))))%nat
  /\ countCalls isHandleError (callsSince w (snd (runWorker fuel w))) =
       countCalls isAddRateLimited (callsSince w (snd (runWorker fuel w))).
Proof.
  assert (Hgen : forall fuel w, exists new,
             calls (snd (runWorker fuel w)) = calls w ++ new
             /\ countCalls isDone new =
                  (countCalls isForget new + countCalls isAddRateLimited new)%nat
             /\ countCalls isHandleError new = countCalls isAddRateLimited new).
  { clear fuel w. induction fuel as [|fuel IH]; intros w.
    - exists []. simpl. by rewrite app_nil_r.
    - cbn [runWorker]. unfold bind.
      destruct (processNextItem_counts w) as (new1 & Hcalls1 & Hd1 & He1 & _).
      destruct (processNextItem w) as [[|] w1]; simpl in Hcalls1.
      + destruct (IH w1) as (new2 & Hcalls2 & Hd2 & He2).
        exists (new1 ++ new2). rewrite Hcalls2, Hcalls1, <- app_assoc.
        rewrite !countCalls_app. repeat split; lia.
      + exists new1. by simpl. }
  destruct (Hgen fuel w) as (new & Hcalls & Hd & He).
  by rewrite (callsSince_app _ _ _ Hcalls).
Qed.

(** ** The consumers *)

(** X8: an update for a job that is gone from the store is dropped by the
    driver-state and the executor-state consumers with no call and no error
    line (only their verbose line is logged), while the app-state consumer
    logs an error for it; none of the three issues a call. *)
Theorem consumers_on_missing_job w c :
  (forall u,
      store_GetByKey (getApplicationKey (driverStateUpdate.appNamespace u)
                        (driverStateUpdate.appName u)) (cluster (env w)) = (Missing, c) ->
      processSingleDriverStateUpdate u w =
        (None,
         {| env := {| cluster := c;
                      glog := glog (env w) ++
                        [{| severity := V2;
                            format := "Received driver state update for SparkApplication %s in namespace %s with phase %s" |}] |};
            calls := calls w |}))
  /\ (forall u,
        store_GetByKey (getApplicationKey (executorStateUpdate.appNamespace u)
                          (executorStateUpdate.appName u)) (cluster (env w)) = (Missing, c) ->
        processSingleExecutorStateUpdate u w =
          (tt,
           {| env := {| cluster := c;
                        glog := glog (env w) ++
                          [{| severity := V2;
                              format := "Received state update of executor %s for SparkApplication %s in namespace %s with state %s" |}] |};
              calls := calls w |}))
  /\ (forall u,
        store_GetByKey (getApplicationKey (appStateUpdate.namespace u)
                          (appStateUpdate.name u)) (cluster (env w)) = (Missing, c) ->
        processSingleAppStateUpdate u w =
          (tt,
           {| env := {| cluster := c;
                        glog := glog (env w) ++
                          [{| severity := ERROR;
                              format := "failed to get SparkApplication %s in namespace %s from the store: %v" |}] |};
              calls := calls w |})).
Proof.
  split; [|split]; intros u Hstore.
  - unfold processSingleDriverStateUpdate, getSparkApplicationFromStore.
    unfold bind, logM, liftE, logE, ext, ret. simpl. by rewrite Hstore.
  - unfold processSingleExecutorStateUpdate, getSparkApplicationFromStore.
    unfold bind, logM, liftE, logE, ext, ret. simpl. by rewrite Hstore.
  - unfold processSingleAppStateUpdate, getSparkApplicationFromStore.
    unfold bind, logM, liftE, logE, ext, ret. simpl. by rewrite Hstore.
Qed.

Lemma executor_consumer_run u w :
  exists new res,
    rounds new res
    /\ calls (snd (processSingleExecutorStateUpdate u w)) = calls w ++ new.
Proof.
  unfold processSingleExecutorStateUpdate.
  unfold bind at 1. simpl. unfold bind at 1.
  rewrite getSparkApplicationFromStore_run. simpl.
  destruct (store_GetByKey _ (cluster (env w))) as [[err| |item] c]; simpl.
  - exists [], None. split; [constructor|].
    destruct (IsNotFound err); simpl; by rewrite app_nil_r.
  - exists [], None. split; [constructor|]. simpl. by rewrite app_nil_r.
  - unfold bind.
    match goal with |- context [updateSparkApplicationWithRetries item _ ?f ?w1] =>
      destruct (updater_rounds item (DeepCopy item) f w1) as (new & Hcalls & Hrounds);
      destruct (updateSparkApplicationWithRetries item (DeepCopy item) f w1) as [res w2]
    end.
    simpl in *. by exists new, res.
Qed.

Lemma appState_consumer_run u w :
  exists new res,
    rounds new res
    /\ calls (snd (processSingleAppStateUpdate u w)) =
       calls w ++ new ++
         match res with
         | Some obj =>
             if bool_decide (State (AppState (Status obj)) = FailedSubmissionState)
             then [Recorder_Eventf obj "SparkApplicationSubmissionFailure"]
             else []
         | None => []
         end.
Proof.
  unfold processSingleAppStateUpdate. unfold bind at 1.
  rewrite getSparkApplicationFromStore_run. simpl.
  destruct (store_GetByKey _ (cluster (env w))) as [[err| |item] c]; simpl.
  - exists [], None. split; [constructor|]. simpl. by rewrite app_nil_r.
  - exists [], None. split; [constructor|]. simpl. by rewrite app_nil_r.
  - unfold bind.
    match goal with |- context [updateSparkApplicationWithRetries item _ ?f ?w1] =>
      destruct (updater_rounds item (DeepCopy item) f w1) as (new & Hcalls & Hrounds);
      destruct (updateSparkApplicationWithRetries item (DeepCopy item) f w1)
        as [[obj|] w2]
    end.
    + simpl in *. exists new, (Some obj). split; [done|].
      case_bool_decide; simpl; rewrite Hcalls; by rewrite ?app_nil_r, <- ?app_assoc.
    + simpl in *. exists new, None. split; [done|]. by rewrite app_nil_r.
Qed.

Lemma driver_consumer_run u w :
  exists new,
    rounds new (fst (processSingleDriverStateUpdate u w))
    /\ calls (snd (processSingleDriverStateUpdate u w)) =
       calls w ++ new ++
         match fst (processSingleDriverStateUpdate u w) with
         | Some obj =>
             if isAppTerminated (State (AppState (Status obj)))
             then [Recorder_Eventf obj "SparkApplicationTermination"]
             else []
         | None => []
         end.
Proof.
  remember (processSingleDriverStateUpdate u w) as run eqn:Hrun.
  unfold processSingleDriverStateUpdate in Hrun.
  unfold bind at 1 2 in Hrun. simpl in Hrun.
  rewrite getSparkApplicationFromStore_run in Hrun. simpl in Hrun.
  destruct (store_GetByKey _ (cluster (env w))) as [[err| |item] c]; simpl in Hrun.
  - exists []. destruct (IsNotFound err); subst run; simpl; rewrite app_nil_r;
      (split; [constructor|done]).
  - exists []. subst run; simpl. rewrite app_nil_r. split; [constructor|done].
  - unfold bind in Hrun.
    match type of Hrun with context [updateSparkApplicationWithRetries item _ ?f ?w1] =>
      destruct (updater_rounds item (DeepCopy item) f w1) as (new & Hcalls & Hrounds);
      destruct (updateSparkApplicationWithRetries item (DeepCopy item) f w1)
        as [[obj|] w2]
    end.
    + simpl in *. exists new.
      destruct (isAppTerminated (State (AppState (Status obj)))) eqn:Hterm;
        subst run; simpl; rewrite ?Hterm; (split; [done|]); rewrite Hcalls;
        by rewrite ?app_nil_r, <- ?app_assoc.
    + simpl in *. exists new. subst run; simpl. split; [done|]. by rewrite app_nil_r.
Qed.

(** X9: the driver-state consumer adds to the trace the rounds of one status
    update and then, exactly when that update returned an object whose state
    is terminal, one termination event for the returned object; it makes no
    other call. *)
Theorem driver_consumer_trace u w :
  exists new,
    rounds new (fst (processSingleDriverStateUpdate u w))
    /\ callsSince w (snd (processSingleDriverStateUpdate u w)) =
       new ++
         match fst (processSingleDriverStateUpdate u w) with
         | Some obj =>
             if isAppTerminated (State (AppState (Status obj)))
             then [Recorder_Eventf obj "SparkApplicationTermination"]
             else []
         | None => []
         end.
Proof.
  destruct (driver_consumer_run u w) as (new & Hrounds & Hcalls).
  exists new. split; [done|]. by apply callsSince_app.
Qed.

(** X10: executor updates never lead to anything but CRD client calls: over
    a whole batch of them the pod-state consumer records no event, submits
    nothing and touches no queue. *)
Theorem executor_updates_only_reach_the_api us w :
  Forall (fun c => isCrd c = true)
    (callsSince w (snd (processPodStateUpdates (List.map ExecutorUpdate us) w))).
Proof.
  assert (Hgen : forall us w, exists new,
             calls (snd (processPodStateUpdates (List.map ExecutorUpdate us) w)) =
               calls w ++ new
             /\ Forall (fun c => isCrd c = true) new).
  { clear us w. induction us as [|u us IH]; intros w.
    - exists []. simpl. by rewrite app_nil_r.
    - simpl. unfold bind.
      destruct (executor_consumer_run u w) as (new1 & res & Hrounds & Hcalls1).
      destruct (processSingleExecutorStateUpdate u w) as [[] w1]. simpl in Hcalls1.
      destruct (IH w1) as (new2 & Hcalls2 & Hall2).
      exists (new1 ++ new2). split.
      + rewrite Hcalls2, Hcalls1. by rewrite <- app_assoc.
      + apply Forall_app. split; [by eapply rounds_crd|done]. }
  destruct (Hgen us w) as (new & Hcalls & Hall).
  by rewrite (callsSince_app _ _ _ Hcalls).
Qed.

(** X11: over a whole batch of app-state updates the consumer makes CRD
    client calls and records submission-failure events for objects in state
    FailedSubmission, and nothing else: it never submits or restarts a job. *)
Theorem appState_updates_never_submit us w :
  Forall (fun c =>
            isCrd c = true
            \/ exists obj,
                 c = Recorder_Eventf obj "SparkApplicationSubmissionFailure"
                 /\ State (AppState (Status obj)) = FailedSubmissionState)
    (callsSince w (snd (processAppStateUpdates us w))).
Proof.
  assert (Hgen : forall us w, exists new,
             calls (snd (processAppStateUpdates us w)) = calls w ++ new
             /\ Forall (fun c =>
                          isCrd c = true
                          \/ exists obj,
                               c = Recorder_Eventf obj "SparkApplicationSubmissionFailure"
                               /\ State (AppState (Status obj)) = FailedSubmissionState)
                  new).
  { clear us w. induction us as [|u us IH]; intros w.
    - exists []. simpl. by rewrite app_nil_r.
    - simpl. unfold bind.
      destruct (appState_consumer_run u w) as (new1 & res & Hrounds & Hcalls1).
      destruct (processSingleAppStateUpdate u w) as [[] w1]. simpl in Hcalls1.
      destruct (IH w1) as (new2 & Hcalls2 & Hall2).
      eexists. split.
      + rewrite Hcalls2, Hcalls1. rewrite <- !app_assoc. reflexivity.
      + apply Forall_app. split.
        * eapply Forall_impl; [exact (rounds_crd _ _ Hrounds)|]. intros c Hc. by left.
        * apply Forall_app. split; [|done].
          destruct res as [obj|]; [|constructor].
          case_bool_decide; [|constructor].
          constructor; [|constructor]. right. by exists obj. }
  destruct (Hgen us w) as (new & Hcalls & Hall).
  by rewrite (callsSince_app _ _ _ Hcalls).
Qed.

(** ** The mutations *)

(** X12: the driver mutation sets the pod name and the state mapped from the
    pod phase, overwrites the completion time only with a non-zero one, and
    leaves the appID, the submission time, the error message, the UI port,
    the executor states and everything outside the status as they were. *)
Theorem driver_mutation_frame u toUpdate e :
  let updated := fst (driverStateUpdateFunc u toUpdate e) in
  PodName (DriverInfo (Status updated)) = driverStateUpdate.podName u
  /\ State (AppState (Status updated)) =
       driverPodPhaseToApplicationState (driverStateUpdate.podPhase u)
  /\ CompletionTime (Status updated) =
       (if IsZero (driverStateUpdate.completionTime u)
        then CompletionTime (Status toUpdate)
        else driverStateUpdate.completionTime u)
  /\ AppID (Status updated) = AppID (Status toUpdate)
  /\ SubmissionTime (Status updated) = SubmissionTime (Status toUpdate)
  /\ ErrorMessage (AppState (Status updated)) = ErrorMessage (AppState (Status toUpdate))
  /\ WebUIPort (DriverInfo (Status updated)) = WebUIPort (DriverInfo (Status toUpdate))
  /\ ExecutorState (Status updated) = ExecutorState (Status toUpdate)
  /\ with_Status (Status toUpdate) updated = toUpdate.
Proof.
  unfold driverStateUpdateFunc, bind, ret. simpl.
  assert (Hobj : with_Status (Status toUpdate) toUpdate = toUpdate) by (by destruct toUpdate).
  case_bool_decide; [|destruct (IsZero _); by simpl].
  destruct (getNodeExternalIP (driverStateUpdate.nodeName u) e) as [nodeIP e1].
  case_bool_decide; destruct (IsZero _); by simpl.
Qed.

(** X13: resolving the driver's address is best effort.  With an empty node
    name the mutation calls nothing and logs nothing; when the node cannot
    be fetched the address stays as it was; and in every case the address is
    either left as it was or set to a non-empty IP, a colon and the port
    the status already held. *)
Theorem driver_address_best_effort u toUpdate e :
  (driverStateUpdate.nodeName u = "" ->
     snd (driverStateUpdateFunc u toUpdate e) = e
     /\ WebUIAddress (DriverInfo (Status (fst (driverStateUpdateFunc u toUpdate e)))) =
          WebUIAddress (DriverInfo (Status toUpdate)))
  /\ (forall err c,
        nodes_Get (driverStateUpdate.nodeName u) (cluster e) = (Err err, c) ->
        WebUIAddress (DriverInfo (Status (fst (driverStateUpdateFunc u toUpdate e)))) =
          WebUIAddress (DriverInfo (Status toUpdate)))
  /\ (WebUIAddress (DriverInfo (Status (fst (driverStateUpdateFunc u toUpdate e)))) =
        WebUIAddress (DriverInfo (Status toUpdate))
      \/ exists nodeIP,
           nodeIP <> ""
           /\ WebUIAddress (DriverInfo (Status (fst (driverStateUpdateFunc u toUpdate e)))) =
                nodeIP +:+ ":" +:+ pretty (WebUIPort (DriverInfo (Status toUpdate)))).
Proof.
  split; [|split].
  - intros Hname. unfold driverStateUpdateFunc, bind, ret. rewrite Hname. simpl.
    split; [by destruct e|]. by destruct (IsZero _).
  - intros err c Hget. unfold driverStateUpdateFunc, bind, ret. simpl.
    case_bool_decide; [|destruct (IsZero _); by simpl].
    unfold getNodeExternalIP, bind, ext, logE, ret. rewrite Hget. simpl.
    destruct (IsZero _); by simpl.
  - unfold driverStateUpdateFunc, bind, ret. simpl.
    case_bool_decide; [|left; destruct (IsZero _); by simpl].
    destruct (getNodeExternalIP (driverStateUpdate.nodeName u) e) as [nodeIP e1].
    case_bool_decide.
    + right. exists nodeIP. split; [done|]. destruct (IsZero _); by simpl.
    + left. destruct (IsZero _); by simpl.
Qed.

(** X14: [getNodeExternalIP] picks the address of the first entry of type
    ExternalIP: a list without such an entry gives the empty string, and
    entries before the first one of that type, and all after it, are
    ignored. *)
Theorem firstExternalIP_first :
  (forall addresses,
      (forall a, In a addresses -> Type_ a <> NodeExternalIP) ->
      firstExternalIP addresses = "")
  /\ (forall before a after,
        (forall b, In b before -> Type_ b <> NodeExternalIP) ->
        Type_ a = NodeExternalIP ->
        firstExternalIP (before ++ a :: after) = Address a).
Proof.
  split.
  - induction addresses as [|a addresses IH]; intros Hnone; [done|].
    simpl. rewrite bool_decide_eq_false_2 by (apply Hnone; by left).
    apply IH. intros b Hb. apply Hnone. by right.
  - induction before as [|b before IH]; intros a after Hnone Ha; simpl.
    + by rewrite bool_decide_eq_true_2.
    + rewrite bool_decide_eq_false_2 by (apply Hnone; by left).
      apply IH; [|done]. intros b' Hb'. apply Hnone. by right.
Qed.

(** X15: a driver update leaves the job in a terminal state exactly when the
    pod phase is Succeeded or Failed. *)
Theorem terminal_phases (podPhase : PodPhase) :
  isAppTerminated (driverPodPhaseToApplicationState podPhase) = true
  <-> podPhase = PodSucceeded \/ podPhase = PodFailed.
Proof.
  unfold driverPodPhaseToApplicationState.
  repeat case_bool_decide; subst; simpl; split; intros Hx; try done;
    try (by left); try (by right); by destruct Hx.
Qed.

(** X16: the executor mutation is a function of the object alone (it leaves
    cluster and log as they were) and changes only the executor-state
    mapping, which becomes non-nil; a state other than Pending is stored
    under the pod name and can be read back; and applying the mutation a
    second time changes nothing. *)
Theorem executor_mutation_closed_form u toUpdate e :
  executorStateUpdateFunc u toUpdate e =
    (with_Status
       (with_ExecutorState
          (Some (if bool_decide (executorStateUpdate.state u = ExecutorPendingState)
                 then executorEntries (Status toUpdate)
                 else <[executorStateUpdate.podName u := executorStateUpdate.state u]>
                        (executorEntries (Status toUpdate))))
          (Status toUpdate)) toUpdate,
     e)
  /\ (executorStateUpdate.state u <> ExecutorPendingState ->
      executorEntries (Status (fst (executorStateUpdateFunc u toUpdate e)))
        !! executorStateUpdate.podName u = Some (executorStateUpdate.state u))
  /\ (forall e',
        fst (executorStateUpdateFunc u (fst (executorStateUpdateFunc u toUpdate e)) e') =
          fst (executorStateUpdateFunc u toUpdate e)).
Proof.
  assert (Hform : forall obj e0,
    executorStateUpdateFunc u obj e0 =
      (with_Status
         (with_ExecutorState
            (Some (if bool_decide (executorStateUpdate.state u = ExecutorPendingState)
                   then executorEntries (Status obj)
                   else <[executorStateUpdate.podName u := executorStateUpdate.state u]>
                          (executorEntries (Status obj))))
            (Status obj)) obj,
       e0)).
  { intros obj e0. unfold executorStateUpdateFunc, executorEntries, ret.
    destruct obj as [n ns uid sp st]. simpl.
    destruct (ExecutorState st) as [m|] eqn:Hes; repeat case_bool_decide;
      simpl; rewrite ?Hes; simpl; try done; destruct st; simpl in *; by subst. }
  split; [apply Hform|split].
  - intros Hne. rewrite Hform. unfold executorEntries. simpl.
    rewrite bool_decide_eq_false_2 by done. by rewrite lookup_insert_eq.
  - intros e'. rewrite !Hform. cbn [fst].
    assert (Hent : forall m st, executorEntries (with_ExecutorState (Some m) st) = m)
      by done.
    change (Status (with_Status ?st _)) with st. rewrite Hent.
    case_bool_decide; [done|]. rewrite insert_insert_eq. done.
Qed.

(** X17: the app-state mutation is a function of the object alone; it always
    overwrites the state and the error message (an empty message erases
    the old one), overwrites the submission time only with a non-zero one,
    and leaves every other field as it was; applied twice it changes nothing
    more. *)
Theorem appState_mutation_closed_form u toUpdate e :
  appStateUpdateFunc u toUpdate e =
    (with_Status
       (with_SubmissionTime
          (if IsZero (appStateUpdate.submissionTime u)
           then SubmissionTime (Status toUpdate)
           else appStateUpdate.submissionTime u)
          (with_AppState {| State := appStateUpdate.state u;
                            ErrorMessage := appStateUpdate.errorMessage u |}
             (Status toUpdate))) toUpdate,
     e)
  /\ (forall e',
        fst (appStateUpdateFunc u (fst (appStateUpdateFunc u toUpdate e)) e') =
          fst (appStateUpdateFunc u toUpdate e)).
Proof.
  assert (Hform : forall obj e0,
    appStateUpdateFunc u obj e0 =
      (with_Status
         (with_SubmissionTime
            (if IsZero (appStateUpdate.submissionTime u)
             then SubmissionTime (Status obj)
             else appStateUpdate.submissionTime u)
            (with_AppState {| State := appStateUpdate.state u;
                              ErrorMessage := appStateUpdate.errorMessage u |}
               (Status obj))) obj,
       e0)).
  { intros obj e0. unfold appStateUpdateFunc, ret.
    destruct obj as [n ns uid sp st]. simpl. by destruct (IsZero _), st. }
  split; [apply Hform|].
  intros e'. rewrite !Hform. simpl. by destruct (IsZero _).
Qed.

(** ** Keys and application IDs *)

Lemma append_inv_head (p x y : string) : p +:+ x = p +:+ y -> x = y.
Proof. induction p as [|c p IH]; simpl; [done|]. intros [= Heq]. by apply IH. Qed.

(** X18: the store key tells jobs apart as long as namespaces hold no
    slash: two jobs with the same key then have the same namespace and the
    same name. *)
Theorem getApplicationKey_inj (namespace1 name1 namespace2 name2 : string) :
  hasSlash namespace1 = false ->
  hasSlash namespace2 = false ->
  getApplicationKey namespace1 name1 = getApplicationKey namespace2 name2 ->
  namespace1 = namespace2 /\ name1 = name2.
Proof.
  unfold getApplicationKey. revert namespace2.
  induction namespace1 as [|c ns1 IH]; intros [|c' ns2]; simpl; intros H1 H2 Heq.
  - by simplify_eq.
  - by simplify_eq.
  - by simplify_eq.
  - injection Heq as -> Heq.
    apply orb_false_elim in H1 as [_ H1]. apply orb_false_elim in H2 as [_ H2].
    destruct (IH ns2 H1 H2 Heq) as [-> ->]. done.
Qed.

(** X19: an application ID is the job's name, a dash and the decimal hash,
    so it is never empty; building it reads the clock and logs nothing; and
    two IDs built for the same job are equal exactly when the two hashes
    are: a fresh ID rests on the hash of the clock reading alone. *)
Theorem buildAppID_fresh job e :
  fst (buildAppID job e) =
    Name job +:+ "-" +:+
      pretty (Sum32 (Name job +:+ Namespace job +:+ UID job +:+
                     pretty (fst (UnixNano (cluster e)))))
  /\ fst (buildAppID job e) <> ""
  /\ glog (snd (buildAppID job e)) = glog e
  /\ (forall e',
        fst (buildAppID job e) = fst (buildAppID job e') <->
        Sum32 (Name job +:+ Namespace job +:+ UID job +:+
               pretty (fst (UnixNano (cluster e)))) =
        Sum32 (Name job +:+ Namespace job +:+ UID job +:+
               pretty (fst (UnixNano (cluster e'))))).
Proof.
  assert (Hform : forall e0,
    fst (buildAppID job e0) =
      Name job +:+ "-" +:+
        pretty (Sum32 (Name job +:+ Namespace job +:+ UID job +:+
                       pretty (fst (UnixNano (cluster e0)))))).
  { intros e0. unfold buildAppID, bind, ext, ret.
    by destruct (UnixNano (cluster e0)). }
  split; [apply Hform|split; [|split]].
  - rewrite Hform. by destruct (Name job).
  - unfold buildAppID, bind, ext, ret. by destruct (UnixNano (cluster e)).
  - intros e'. rewrite !Hform. split.
    + intros Heq. apply append_inv_head in Heq.
      apply (append_inv_head "-") in Heq. by apply (inj pretty) in Heq.
    + by intros ->.
Qed.

(** The status [submitApp]'s mutation leaves, when the UI-service helper
    leaves the status alone. *)
Lemma submitAppUpdate_status resubmission job e :
  (forall obj e', Status (fst (createSparkUIService obj e')) = Status obj) ->
  Status (fst (submitAppUpdate resubmission job e)) =
    with_AppState
      (with_State NewState
         (AppState (if resubmission then emptyStatus else Status job)))
      (with_AppID
         (fst (buildAppID
                 (if resubmission then with_Status emptyStatus job else job) e))
         (if resubmission then emptyStatus else Status job)).
Proof.
  intros Hframe. unfold submitAppUpdate, bind.
  destruct (buildAppID _ e) as [id e1]. rewrite Hframe.
  by destruct resubmission.
Qed.

(** X20: on a first submission (no resubmission), when the UI-service helper
    leaves the status alone, the mutation sets the state to New and the
    appID to the fresh one and keeps everything else the status held: the
    driver info, the executor states, both times and also an error message
    of an earlier attempt. *)
Theorem first_submission_keeps_status job e :
  (forall obj e', Status (fst (createSparkUIService obj e')) = Status obj) ->
  State (AppState (Status (fst (submitAppUpdate false job e)))) = NewState
  /\ AppID (Status (fst (submitAppUpdate false job e))) = fst (buildAppID job e)
  /\ ErrorMessage (AppState (Status (fst (submitAppUpdate false job e)))) =
       ErrorMessage (AppState (Status job))
  /\ DriverInfo (Status (fst (submitAppUpdate false job e))) = DriverInfo (Status job)
  /\ ExecutorState (Status (fst (submitAppUpdate false job e))) =
       ExecutorState (Status job)
  /\ SubmissionTime (Status (fst (submitAppUpdate false job e))) =
       SubmissionTime (Status job)
  /\ CompletionTime (Status (fst (submitAppUpdate false job e))) =
       CompletionTime (Status job).
Proof.
  intros Hframe. rewrite (submitAppUpdate_status false job e Hframe). by simpl.
Qed.

(** ** Restart *)

Lemma updater_writes_first original toUpdate f w :
  Status original <> Status (fst (f toUpdate (env w))) ->
  exists r rest,
    calls (snd (updateSparkApplicationWithRetries original toUpdate f w)) =
      calls w ++ Crd_Update (fst (f toUpdate (env w))) r :: rest.
Proof.
  intros Hne.
  destruct (updater_first_write original toUpdate f w Hne) as (r & rest & Hsince).
  destruct (updater_rounds original toUpdate f w) as (new & Hcalls & _).
  rewrite (callsSince_app _ _ _ Hcalls) in Hsince. subst new. by exists r, rest.
Qed.

(** X21: restarting a terminated job always reaches the API server: after
    the resubmission event the first call is an [Update] whose status holds
    the fresh appID and the state New and nothing else of the terminated
    run (when the UI-service helper leaves the status alone). *)
Theorem restart_writes_a_reset_status job w :
  (forall obj e', Status (fst (createSparkUIService obj e')) = Status obj) ->
  isAppTerminated (State (AppState (Status job))) = true ->
  RestartPolicy_ (Spec job) = Always
  \/ (RestartPolicy_ (Spec job) = OnFailure
      /\ State (AppState (Status job)) = FailedState) ->
  exists obj r rest,
    callsSince w (snd (handleRestart job w)) =
      Recorder_Eventf job "SparkApplicationResubmission" :: Crd_Update obj r :: rest
    /\ State (AppState (Status obj)) = NewState
    /\ AppID (Status obj) <> ""
    /\ ErrorMessage (AppState (Status obj)) = ""
    /\ DriverInfo (Status obj) = {| PodName := ""; WebUIAddress := ""; WebUIPort := 0 |}
    /\ ExecutorState (Status obj) = None
    /\ SubmissionTime (Status obj) = 0
    /\ CompletionTime (Status obj) = 0.
Proof.
  intros Hframe Hterm Hpolicy.
  assert (Hrun : handleRestart job w =
    (do! logM INFO "SparkApplication %s failed or terminated, restarting it with RestartPolicy %s" in
     do! call (Recorder_Eventf job "SparkApplicationResubmission") in
     submitApp job true) w).
  { unfold handleRestart. destruct Hpolicy as [->|[-> ->]]; simpl; [|done].
    by destruct (bool_decide _). }
  rewrite Hrun. unfold bind at 1 2. simpl.
  match goal with |- context [submitApp job true ?w1] => set (w1' := w1) end.
  assert (Hne : Status job <>
                Status (fst (submitAppUpdate true (DeepCopy job) (env w1')))).
  { rewrite (submitAppUpdate_status true _ _ Hframe). intros Heq.
    apply (f_equal (fun st => State (AppState st))) in Heq. simpl in Heq.
    rewrite Heq in Hterm. done. }
  destruct (updater_writes_first job (DeepCopy job) (submitAppUpdate true) w1' Hne)
    as (r & rest & Hcalls).
  assert (Hsub : exists rest', calls (snd (submitApp job true w1')) =
                   calls w1' ++
                   Crd_Update (fst (submitAppUpdate true (DeepCopy job) (env w1'))) r
                   :: rest').
  { unfold submitApp, bind.
    destruct (updateSparkApplicationWithRetries _ _ _ w1') as [[updatedApp|] w2];
      simpl in Hcalls.
    - destruct (buildSubmissionCommandArgs updatedApp) as [cmd [err|]]; simpl;
        rewrite Hcalls, <- app_assoc; by eexists.
    - by exists rest. }
  destruct Hsub as (rest' & Hsub).
  exists (fst (submitAppUpdate true (DeepCopy job) (env w1'))), r, rest'. split.
  - apply callsSince_app. rewrite Hsub. subst w1'. simpl. by rewrite <- app_assoc.
  - rewrite (submitAppUpdate_status true _ _ Hframe). simpl.
    repeat split; try done.
    unfold buildAppID, bind, ext, ret. destruct (UnixNano _). simpl.
    by destruct (Name (DeepCopy job)).
Qed.

(** X22: a driver update leads to a submission only through a restart: if
    the pod-state consumer hands anything to the runner while processing a
    driver update, then the status update returned an object in a terminal
    state whose policy is Always, or OnFailure with the state Failed. *)
Theorem driver_update_submits_only_on_restart u w s :
  In (Runner_submit s) (callsSince w (snd (processPodStateUpdate (DriverUpdate u) w))) ->
  exists obj,
    fst (processSingleDriverStateUpdate u w) = Some obj
    /\ isAppTerminated (State (AppState (Status obj))) = true
    /\ (RestartPolicy_ (Spec obj) = Always
        \/ (RestartPolicy_ (Spec obj) = OnFailure
            /\ State (AppState (Status obj)) = FailedState)).
Proof.
  unfold processPodStateUpdate, bind.
  destruct (driver_consumer_run u w) as (new & Hrounds & Hcalls).
  destruct (processSingleDriverStateUpdate u w) as [[obj|] w1]; simpl in *.
  - assert (Hquiet : ~ In (Runner_submit s) (callsSince w w1)).
    { rewrite (callsSince_app _ _ _ Hcalls). intros Hin.
      apply in_app_or in Hin as [Hin|Hin].
      - pose proof (rounds_crd _ _ Hrounds) as Hcrd.
        rewrite Forall_forall in Hcrd. apply list_elem_of_In in Hin.
        by specialize (Hcrd _ Hin).
      - destruct (isAppTerminated _); [by destruct Hin as [|[]]|by destruct Hin]. }
    destruct (isAppTerminated (State (AppState (Status obj)))) eqn:Hterm;
      [|by intros Hin].
    intros Hin. exists obj. split; [done|]. split; [done|].
    unfold handleRestart in Hin.
    destruct (RestartPolicy_ (Spec obj)) eqn:Hpol,
             (State (AppState (Status obj))) eqn:Hst;
      simpl in Hin; try done; try (by left); by right.
  - intros Hin. rewrite (callsSince_app _ _ _ Hcalls) in Hin.
    rewrite app_nil_r in Hin.
    pose proof (rounds_crd _ _ Hrounds) as Hcrd.
    rewrite Forall_forall in Hcrd. apply list_elem_of_In in Hin.
    by specialize (Hcrd _ Hin).
Qed.
End MoreFacts.

(** * The further properties on the fake clusters *)

(** The node is found for the first attempt, which meets a conflict, and is
    gone for the second: the mutation then changes nothing and the updater
    returns nil without a word. *)
Lemma updater_gives_up_silently_witness :
  fst (updateSparkApplicationWithRetries Flaky.driven (DeepCopy Flaky.driven)
         (driverStateUpdateFunc Flaky.driverRunning) Flaky.world) = None
  /\ persistenceAttempts
       (calls (snd (updateSparkApplicationWithRetries Flaky.driven (DeepCopy Flaky.driven)
                      (driverStateUpdateFunc Flaky.driverRunning) Flaky.world))) = 1%nat
  /\ List.filter (fun line => bool_decide (format line <> "failed to get node %s"))
       (glog (env (snd (updateSparkApplicationWithRetries Flaky.driven
                          (DeepCopy Flaky.driven)
                          (driverStateUpdateFunc Flaky.driverRunning) Flaky.world)))) = [].
Proof.
  pose (a1 := tryUpdate Flaky.driven (DeepCopy Flaky.driven)
                (driverStateUpdateFunc Flaky.driverRunning) Flaky.world).
  pose (g1 := crdGet (Namespace (fst (fst a1))) (Name (fst (fst a1))) (snd a1)).
  rewrite (updater_gives_up_silently Flaky.driven (DeepCopy Flaky.driven)
             (driverStateUpdateFunc Flaky.driverRunning) Flaky.world
             (fst (fst a1)) (StatusError 409 StatusReasonConflict) (snd a1)
             Flaky.driven (snd g1))
    by (vm_compute; reflexivity).
  vm_compute. by repeat split.
Defined.

(** A round of the worker on a queued job that the store holds. *)
Lemma processNextItem_forgets_found_job_witness :
  fst (processNextItem
         (Fake.world (Fake.holding "ns1/wordcount" (Fake.wordcount Never emptyStatus) 0)))
    = true
  /\ exists new,
       callsSince
         (Fake.world (Fake.holding "ns1/wordcount" (Fake.wordcount Never emptyStatus) 0))
         (snd (processNextItem
                 (Fake.world (Fake.holding "ns1/wordcount"
                                (Fake.wordcount Never emptyStatus) 0))))
       = new ++ [Queue_Forget "ns1/wordcount"; Queue_Done "ns1/wordcount"]
       /\ Forall (fun c => isCrd c || isSubmit c = true) new.
Proof.
  eapply (processNextItem_forgets_found_job
            (Fake.world (Fake.holding "ns1/wordcount" (Fake.wordcount Never emptyStatus) 0))
            "ns1/wordcount");
    reflexivity.
Defined.

(** Two jobs of one namespace with the same key are the same job. *)
Lemma getApplicationKey_inj_witness :
  "ns1" = "ns1" /\ "wordcount" = "wordcount".
Proof.
  apply (getApplicationKey_inj "ns1" "wordcount" "ns1" "wordcount"); reflexivity.
Defined.

(** A first submission of a job that carries a full status. *)
Lemma first_submission_keeps_status_witness :
  State (AppState (Status (fst (submitAppUpdate false (Fake.wordcount Never Fake.status0)
                                  (env Fake.watching))))) = NewState
  /\ AppID (Status (fst (submitAppUpdate false (Fake.wordcount Never Fake.status0)
                           (env Fake.watching))))
     = fst (buildAppID (Fake.wordcount Never Fake.status0) (env Fake.watching))
  /\ ErrorMessage (AppState (Status (fst (submitAppUpdate false
                                            (Fake.wordcount Never Fake.status0)
                                            (env Fake.watching)))))
     = "driver pod failed".
Proof.
  destruct (@first_submission_keeps_status Fake.t Fake.externals
              (Fake.wordcount Never Fake.status0) (env Fake.watching)
              (fun obj e' => eq_refl)) as (Hstate & Hid & Hmsg & _).
  exact (conj Hstate (conj Hid Hmsg)).
Defined.

(** Restarting the failed job of the restart scenario. *)
Lemma restart_writes_a_reset_status_witness :
  exists obj r rest,
    callsSince Fake.watching (snd (handleRestart Fake.failed Fake.watching)) =
      Recorder_Eventf Fake.failed "SparkApplicationResubmission"
      :: Crd_Update obj r :: rest
    /\ State (AppState (Status obj)) = NewState
    /\ AppID (Status obj) <> ""
    /\ ErrorMessage (AppState (Status obj)) = ""
    /\ DriverInfo (Status obj) = {| PodName := ""; WebUIAddress := ""; WebUIPort := 0 |}
    /\ ExecutorState (Status obj) = None
    /\ SubmissionTime (Status obj) = 0
    /\ CompletionTime (Status obj) = 0.
Proof.
  apply (@restart_writes_a_reset_status Fake.t Fake.externals Fake.failed Fake.watching
           (fun obj e' => eq_refl) eq_refl (or_intror (conj eq_refl eq_refl))).
Defined.

(** The failed driver of the restart scenario leads to a submission, and so
    the update returned a terminal object under a restarting policy. *)
Lemma driver_update_submits_only_on_restart_witness :
  exists obj,
    fst (processSingleDriverStateUpdate Fake.driverFailed Fake.watching) = Some obj
    /\ isAppTerminated (State (AppState (Status obj))) = true
    /\ (RestartPolicy_ (Spec obj) = Always
        \/ (RestartPolicy_ (Spec obj) = OnFailure
            /\ State (AppState (Status obj)) = FailedState)).
Proof.
  apply (driver_update_submits_only_on_restart Fake.driverFailed Fake.watching
           (newSubmission ["spark-submit"; "--name"; "wordcount"]
              (Fake.wordcount OnFailure Fake.submitted))).
  vm_compute. repeat (first [left; reflexivity | right]).
Defined.
